(** * EMOS E6016 weather station decoder (src/devices/emos_e6016.c)

    A shallow embedding of [emos_e6016_decode] and of the helpers it calls,
    followed by the properties of the decoder.

    - [uint8_t] is [Byte.byte]; its value is read with [U8.val].
    - [int] expressions are written over [Z] with [Z.land], [Z.lor],
      [Z.shiftl], [Z.shiftr]; the one narrowing cast, [(int16_t)], is
      written out as [int16_t].  Every other intermediate value fits in 31
      bits (see [dcf77_raw_range]), so no [int] wrap-around occurs.
    - [float] is IEEE binary32, computed with the Corelib reference
      implementation [SpecFloat] at precision 24.
    - The decoder mutates the bit buffer it is given and calls the logger
      and the output sink: it is written in a small state monad whose state
      holds the buffer and the trace of effectful calls. *)

From Stdlib Require Import ZArith List String Ascii Bool Lia Arith.
From Stdlib Require Import Strings.Byte.
From Stdlib Require Import QArith Qabs DecimalString.
From Stdlib Require Import Floats.SpecFloat.
Import ListNotations.

Local Open Scope Z_scope.

(** ** Bytes *)

Module U8.

(** Value of a [uint8_t]. *)
Definition val (b : byte) : Z := Z.of_N (Byte.to_N b).

(** Storing an [int] into a [uint8_t] keeps the low eight bits. *)
Definition of_Z (z : Z) : byte :=
  match Byte.of_N (Z.to_N (z mod 256)) with
  | Some b => b
  | None => x00
  end.

End U8.

(** ** binary32 arithmetic *)

Module F32.

Definition prec : Z := 24.
Definition emax : Z := 128.

(** Conversion of an [int] to [float] (round to nearest even). *)
Definition of_int (z : Z) : spec_float := binary_normalize prec emax z 0 false.

Definition mul : spec_float -> spec_float -> spec_float := SFmul prec emax.

(** The literals [0.1f] and [22.5f]: the binary32 numbers nearest to 1/10
    and to 45/2. *)
Definition lit_0_1 : spec_float :=
  Eval vm_compute in SFdiv prec emax (of_int 1) (of_int 10).
Definition lit_22_5 : spec_float :=
  Eval vm_compute in SFdiv prec emax (of_int 45) (of_int 2).

(** Promotion of a [float] to the [double] passed to [data_make]. *)
Definition to_double (f : spec_float) : spec_float :=
  match f with
  | S754_finite s m e => binary_normalize 53 1024 (cond_Zopp s (Zpos m)) e s
  | _ => f
  end.

(** The rational number a finite float stands for. *)
Definition to_Q (f : spec_float) : option Q :=
  match f with
  | S754_zero _ => Some 0%Q
  | S754_finite s m e => Some (inject_Z (cond_Zopp s (Zpos m)) * Qpower 2 e)%Q
  | _ => None
  end.

End F32.

(** ** The bit buffer *)

(** Modelled from the spec: the declaration of [bitbuffer_t] (bitbuffer.h)
    is not among the sources.  Section 3 describes a bit row as "a byte
    buffer plus an exact bit count" and a transmission as the ordered
    collection of its rows; the decoder reads them as [bitbuffer->bb[r]]
    and [bitbuffer->bits_per_row[r]]. *)
Record bitrow_t := mk_row { row_bits : nat; row_bytes : list byte }.

Definition bitbuffer_t := list bitrow_t.

Definition empty_row : bitrow_t := mk_row 0 [].

Definition bits_per_row (bitbuffer : bitbuffer_t) (r : nat) : nat :=
  row_bits (nth r bitbuffer empty_row).

Definition bb (bitbuffer : bitbuffer_t) (r : nat) : list byte :=
  row_bytes (nth r bitbuffer empty_row).

(** [b[i]] as an [int]; the part of a row buffer that the capture never
    wrote reads as zero. *)
Definition idx (b : list byte) (i : nat) : Z := U8.val (nth i b x00).

Notation "b .[ i ]" := (idx b i) (at level 1, format "b .[ i ]").

(** Bit [i] of a row, bits numbered from the most significant bit of byte 0
    (section 4.5: "bit positions numbered MSB-first within each byte"). *)
Definition row_bit (row : bitrow_t) (i : nat) : bool :=
  Z.testbit (row_bytes row).[i / 8] (Z.of_nat (7 - i mod 8)).

(** *** Consensus matching *)

(** Two rows have [n] bits or more and are bit-identical over the first
    [n] of them. *)
Definition rows_agree (n : nat) (a b : bitrow_t) : bool :=
  (n <=? row_bits a)%nat && (n <=? row_bits b)%nat &&
  forallb (fun i => Bool.eqb (row_bit a i) (row_bit b i)) (seq 0 n).

(** Number of rows of the buffer that agree with row [r] over [n] bits. *)
Definition count_repeats (bitbuffer : bitbuffer_t) (r n : nat) : nat :=
  List.length (filter (rows_agree n (nth r bitbuffer empty_row)) bitbuffer).

(** Modelled from the spec: [bitbuffer_find_repeated_row] (bitbuffer.c) is
    not among the sources.  Section 4.1: "find a row index whose byte
    content [...] is bit-identical across at least 3 occurrences among the
    rows", compared over the given number of leading bits; "signals no
    consensus" otherwise, which the caller tests as a negative result.  The
    rows are scanned in capture order and the first such index is
    returned. *)
Definition bitbuffer_find_repeated_row
    (bitbuffer : bitbuffer_t) (min_repeats min_bits : nat) : Z :=
  match find (fun i => (min_repeats <=? count_repeats bitbuffer i min_bits)%nat)
             (seq 0 (List.length bitbuffer)) with
  | Some i => Z.of_nat i
  | None => -1
  end.

(** *** Inversion *)

(** Mask of the [k] leading bits of a byte (all eight when [k >= 8]). *)
Definition lead_mask (k : nat) : Z :=
  Z.land (Z.shiftl 0xff (Z.of_nat (8 - k))) 0xff.

Definition invert_byte (k : nat) (x : byte) : byte :=
  U8.of_Z (Z.lxor (U8.val x) (lead_mask k)).

(** Inversion of the first [n] bits of a row buffer. *)
Definition invert_bytes (n : nat) (b : list byte) : list byte :=
  map (fun j => invert_byte (n - 8 * j) (nth j b x00))
      (seq 0 (Nat.max (List.length b) ((n + 7) / 8))).

Definition invert_row (row : bitrow_t) : bitrow_t :=
  mk_row (row_bits row) (invert_bytes (row_bits row) (row_bytes row)).

(** Modelled from the spec: [bitbuffer_invert] (bitbuffer.c) is not among
    the sources.  Section 4.3: "every bit of the Frame is inverted (0<->1)";
    section 9: the source inverts "the whole captured buffer rather than
    only the matched frame".  A row has exactly [row_bits] bits, so the
    padding bits behind them are left as they are. *)
Definition bitbuffer_invert (bitbuffer : bitbuffer_t) : bitbuffer_t :=
  map invert_row bitbuffer.

(** *** Byte sum *)

(** Modelled from the spec: [add_bytes] (util.c) is not among the sources.
    Section 4.4: the checksum "sums the first 13 bytes"; the result is an
    [int], which the caller reduces to its low eight bits. *)
Definition add_bytes (message : list byte) (num_bytes : nat) : Z :=
  fold_left (fun result i => result + message.[i]) (seq 0 num_bytes) 0.

(** ** Output records *)

(** Modelled from the spec: [data_make] (data.h) is not among the sources.
    Section 3: a reading is "a mapping from field name to typed value
    (string, integer, floating point)".  A record keeps, per field, the
    key, the label, the optional [DATA_FORMAT] and the typed value, in the
    order of the call. *)
Inductive data_value :=
| DATA_STRING (s : string)
| DATA_INT (i : Z)
| DATA_DOUBLE (d : spec_float).

Record data_field := mk_field
  { key : string; pretty_key : string; format : option string; value : data_value }.

Arguments mk_field (key pretty_key)%_string format value.
Arguments DATA_STRING s%_string.

Definition data_t := list data_field.

Definition data_get (k : string) (data : data_t) : option data_value :=
  option_map value (find (fun f => String.eqb (key f) k) data).
Arguments data_get k%_string data.

(** ** Return codes *)

(** decoder.h is not among the sources: the abort codes stay symbolic, and a
    successful decode returns the number of records it put out. *)
Inductive decode_abort := DECODE_ABORT_LENGTH | DECODE_ABORT_EARLY | DECODE_FAIL_MIC.

Inductive retval :=
| Abort (code : decode_abort)
| Events (n : Z).

(** ** Effects *)

(** The effectful calls of the decoder, in the order they are made. *)
Inductive call :=
| Call_decoder_log (level : Z) (func msg : string)
| Call_bitbuffer_invert
| Call_decoder_output_data (data : data_t).

Arguments Call_decoder_log level%_Z (func msg)%_string.

Record world := mk_world { buffer : bitbuffer_t; calls : list call }.

Definition M (A : Type) : Type := world -> A * world.

Definition ret {A} (a : A) : M A := fun w => (a, w).

Definition bind {A B} (m : M A) (k : A -> M B) : M B :=
  fun w => let (a, w') := m w in k a w'.

Notation "x <- m ;; k" := (bind m (fun x => k))
  (at level 61, m at next level, right associativity).
Notation "m ;; k" := (bind m (fun _ => k))
  (at level 61, right associativity).

(** Reading from the buffer as it is now. *)
Definition read {A} (f : bitbuffer_t -> A) : M A := fun w => (f (buffer w), w).

Definition emit (c : call) : M unit :=
  fun w => (tt, mk_world (buffer w) (calls w ++ [c])).

(** The logger and the output sink are collaborators outside the decoder:
    a call to them is recorded with its arguments, whatever the verbosity. *)
Definition decoder_log (level : Z) (func msg : string) : M unit :=
  emit (Call_decoder_log level func msg).
Arguments decoder_log level%_Z (func msg)%_string.

(** The call [bitbuffer_invert(bitbuffer)]: the caller's buffer is replaced
    by its inversion. *)
Definition do_bitbuffer_invert : M unit :=
  fun w => (tt, mk_world (bitbuffer_invert (buffer w)) (calls w ++ [Call_bitbuffer_invert])).

Definition decoder_output_data (data : data_t) : M unit :=
  emit (Call_decoder_output_data data).

(** [printf]'s [%d]. *)
Definition fmt_d (z : Z) : string := NilZero.string_of_int (Z.to_int z).

(** ** The decoder *)

(** [(int16_t)x] *)
Definition int16_t (x : Z) : Z := (x + 32768) mod 65536 - 32768.

(** The locals of [emos_e6016_decode], as functions of the row buffer [b]
    they are read from (lines 91-104 of the source). *)
Section Locals.
Variable b : list byte.

Definition id : Z := b.[3].
Definition battery : Z := Z.shiftr (Z.land b.[4] 0xf0) 4.
Definition dcf77_raw : Z :=
  Z.lor (Z.lor (Z.lor (Z.lor (Z.shiftl (Z.land b.[4] 0x0f) 26)
                             (Z.shiftl b.[5] 18))
                      (Z.shiftl b.[6] 10))
               (Z.shiftl b.[7] 2))
        (Z.shiftr b.[8] 6).
Definition dcf77_sec : Z := Z.land (Z.shiftr dcf77_raw 0) 0x3f.
Definition dcf77_min : Z := Z.land (Z.shiftr dcf77_raw 6) 0x3f.
Definition dcf77_hour : Z := Z.land (Z.shiftr dcf77_raw 12) 0x1f.
Definition dcf77_days : Z := Z.shiftr dcf77_raw 17.
Definition channel : Z := Z.land (Z.shiftr b.[8] 4) 0x3 + 1.
Definition temp_raw : Z :=
  int16_t (Z.lor (Z.shiftl (Z.land b.[8] 0x0f) 12) (Z.shiftl b.[9] 4)).
Definition temp_c : spec_float := F32.mul (F32.of_int (Z.shiftr temp_raw 4)) F32.lit_0_1.
Definition humidity : Z := b.[10].
Definition speed_ms : spec_float := F32.of_int b.[11].
Definition dir_raw : Z := Z.shiftr (Z.land b.[12] 0xf0) 4.
Definition dir_deg : spec_float := F32.mul (F32.of_int dir_raw) F32.lit_22_5.

(** [sprintf(dcf77_str, "%dT%d:%d:%d", ...)] into [char dcf77_str[14]];
    the text never exceeds 13 characters (see [dcf77_str_fits]). *)
Definition dcf77_str : string :=
  (fmt_d dcf77_days ++ "T" ++ fmt_d dcf77_hour ++ ":" ++ fmt_d dcf77_min
     ++ ":" ++ fmt_d dcf77_sec)%string.

(** [!!battery] *)
Definition battery_ok : Z := if battery =? 0 then 0 else 1.

(** The [data_make] call of lines 110-122. *)
Definition data : data_t :=
  [ mk_field "model"          ""               None          (DATA_STRING "EMOS-E6016");
    mk_field "id"             "House Code"     None          (DATA_INT id);
    mk_field "channel"        "Channel"        None          (DATA_INT channel);
    mk_field "battery_ok"     "Battery_OK"     None          (DATA_INT battery_ok);
    mk_field "temperature_C"  "Temperature_C"  (Some "%.1f"%string) (DATA_DOUBLE (F32.to_double temp_c));
    mk_field "humidity"       "Humidity"       (Some "%u"%string)   (DATA_INT humidity);
    mk_field "wind_avg_m_s"   "WindSpeed m_s"  (Some "%.1f"%string) (DATA_DOUBLE (F32.to_double speed_ms));
    mk_field "wind_dir_deg"   "Wind direction" (Some "%.1f"%string) (DATA_DOUBLE (F32.to_double dir_deg));
    mk_field "datetime_raw"   "Raw DCF77"      (Some "%08x"%string) (DATA_INT dcf77_raw);
    mk_field "datetime_maybe" "Maybe DCF77"    None          (DATA_STRING dcf77_str);
    mk_field "mic"            "Integrity"      None          (DATA_STRING "CHECKSUM") ].
End Locals.

Definition __func__ : string := "emos_e6016_decode"%string.

(** [emos_e6016_decode].  The pointer [b = bitbuffer->bb[r]] is taken before
    [bitbuffer_invert] runs on the same buffer, so what is read through it
    afterwards are the inverted bytes of row [r]: the row is loaded from the
    current buffer at each use. *)
Definition emos_e6016_decode : M retval :=
  r <- read (fun bitbuffer => bitbuffer_find_repeated_row bitbuffer 3 (120 - 8)) ;;
  if r <? 0 then
    decoder_log 2 __func__ "Repeated row fail" ;;
    ret (Abort DECODE_ABORT_EARLY)
  else
    decoder_log 2 __func__ ("Found row: " ++ fmt_d r) ;;
    len <- read (fun bitbuffer => bits_per_row bitbuffer (Z.to_nat r)) ;;
    if negb (len =? 120)%nat then
      decoder_log 2 __func__ "Length check fail" ;;
      ret (Abort DECODE_ABORT_LENGTH)
    else
      b <- read (fun bitbuffer => bb bitbuffer (Z.to_nat r)) ;;
      if negb (b.[0] =? 0x55) || negb (b.[1] =? 0x5a) || negb (b.[2] =? 0x7c) then
        decoder_log 2 __func__ "Model check fail" ;;
        ret (Abort DECODE_ABORT_EARLY)
      else
        do_bitbuffer_invert ;;
        b <- read (fun bitbuffer => bb bitbuffer (Z.to_nat r)) ;;
        if negb (Z.land (add_bytes b 13) 0xff =? b.[13]) then
          decoder_log 2 __func__ "Checksum fail" ;;
          ret (Abort DECODE_FAIL_MIC)
        else
          decoder_output_data (data b) ;;
          ret (Events 1).

(** One decode call on a freshly captured buffer. *)
Definition decode (bitbuffer : bitbuffer_t) : retval * world :=
  emos_e6016_decode (mk_world bitbuffer []).

(** The readings handed to the output sink. *)
Definition outputs (cs : list call) : list data_t :=
  flat_map (fun c => match c with Call_decoder_output_data d => [d] | _ => [] end) cs.

(** Number of [bitbuffer_invert] calls. *)
Definition inversions (cs : list call) : nat :=
  List.length (filter (fun c => match c with Call_bitbuffer_invert => true | _ => false end) cs).

(** The capture of the source's "Raw data" comment (lines 43-48). *)
Definition raw_row (rr : byte) : bitrow_t :=
  mk_row 120 [x55; x5a; x7c; x00; x6a; xa5; x60; xe7; x3f; x36; xda; xff; x5d; x38; rr].

Definition raw_data : bitbuffer_t :=
  map raw_row [xff; xfe; xfd; xfc; xfb; xfa].

(** * Vocabulary of the specification *)

(** ** Consensus groups *)

(** The rows [a] and [b] both have [n] bits and are bit-identical over the
    first [n] of them. *)
Definition bit_identical (n : nat) (a b : bitrow_t) : Prop :=
  (n <= row_bits a)%nat /\ (n <= row_bits b)%nat /\
  forall i, (i < n)%nat -> row_bit a i = row_bit b i.

(** A group of [k] or more rows of the buffer, given by their distinct
    indices, that are pairwise bit-identical over their first [n] bits. *)
Record consensus_group (bitbuffer : bitbuffer_t) (n k : nat) (g : list nat) : Prop :=
  { group_distinct : NoDup g;
    group_size : (k <= List.length g)%nat;
    group_rows : forall i, In i g -> (i < List.length bitbuffer)%nat;
    group_agree : forall i j, In i g -> In j g ->
        bit_identical n (nth i bitbuffer empty_row) (nth j bitbuffer empty_row) }.

(** Indices of the rows that agree with row [r]. *)
Definition repeats_of (bitbuffer : bitbuffer_t) (r n : nat) : list nat :=
  filter (fun i => rows_agree n (nth r bitbuffer empty_row) (nth i bitbuffer empty_row))
         (seq 0 (List.length bitbuffer)).

(** ** The paths through the decoder *)

(** The signature test of line 78, on the bytes [b] of the selected row. *)
Definition model_ok (b : list byte) : Prop :=
  b.[0] = 0x55 /\ b.[1] = 0x5a /\ b.[2] = 0x7c.

Definition found_log (r : nat) : call :=
  Call_decoder_log 2 __func__ ("Found row: " ++ fmt_d (Z.of_nat r)).

(** [decode_path bitbuffer res w]: the five ways through
    [emos_e6016_decode], each with the conditions under which it is taken,
    the value returned and the buffer and call trace it leaves behind. *)
Inductive decode_path (bitbuffer : bitbuffer_t) : retval -> world -> Prop :=
| path_no_repeat :
    bitbuffer_find_repeated_row bitbuffer 3 112 = -1 ->
    decode_path bitbuffer (Abort DECODE_ABORT_EARLY)
      (mk_world bitbuffer [Call_decoder_log 2 __func__ "Repeated row fail"])
| path_length r :
    bitbuffer_find_repeated_row bitbuffer 3 112 = Z.of_nat r ->
    bits_per_row bitbuffer r <> 120%nat ->
    decode_path bitbuffer (Abort DECODE_ABORT_LENGTH)
      (mk_world bitbuffer [found_log r; Call_decoder_log 2 __func__ "Length check fail"])
| path_model r :
    bitbuffer_find_repeated_row bitbuffer 3 112 = Z.of_nat r ->
    bits_per_row bitbuffer r = 120%nat ->
    ~ model_ok (bb bitbuffer r) ->
    decode_path bitbuffer (Abort DECODE_ABORT_EARLY)
      (mk_world bitbuffer [found_log r; Call_decoder_log 2 __func__ "Model check fail"])
| path_checksum r :
    bitbuffer_find_repeated_row bitbuffer 3 112 = Z.of_nat r ->
    bits_per_row bitbuffer r = 120%nat ->
    model_ok (bb bitbuffer r) ->
    Z.land (add_bytes (bb (bitbuffer_invert bitbuffer) r) 13) 0xff
      <> (bb (bitbuffer_invert bitbuffer) r).[13] ->
    decode_path bitbuffer (Abort DECODE_FAIL_MIC)
      (mk_world (bitbuffer_invert bitbuffer)
         [found_log r; Call_bitbuffer_invert;
          Call_decoder_log 2 __func__ "Checksum fail"])
| path_output r :
    bitbuffer_find_repeated_row bitbuffer 3 112 = Z.of_nat r ->
    bits_per_row bitbuffer r = 120%nat ->
    model_ok (bb bitbuffer r) ->
    Z.land (add_bytes (bb (bitbuffer_invert bitbuffer) r) 13) 0xff
      = (bb (bitbuffer_invert bitbuffer) r).[13] ->
    decode_path bitbuffer (Events 1)
      (mk_world (bitbuffer_invert bitbuffer)
         [found_log r; Call_bitbuffer_invert;
          Call_decoder_output_data (data (bb (bitbuffer_invert bitbuffer) r))]).

(** The representative row [r] has been found and has passed the length
    check and the signature check, all on the bytes as received. *)
Definition validated (bitbuffer : bitbuffer_t) (r : nat) : Prop :=
  bitbuffer_find_repeated_row bitbuffer 3 112 = Z.of_nat r /\
  bits_per_row bitbuffer r = 120%nat /\
  model_ok (bb bitbuffer r).

(** ** The checksum of section 4.4 *)

(** Section 4.4: the first 13 bytes, summed with 8-bit wrap-around. *)
Definition checksum (b : list byte) : Z :=
  (b.[0] + b.[1] + b.[2] + b.[3] + b.[4] + b.[5] + b.[6] + b.[7] + b.[8]
   + b.[9] + b.[10] + b.[11] + b.[12]) mod 256.

(** ** The field layout of section 4.5 *)

(** The fields as the layout table defines them, in arithmetic on the byte
    values of a frame [f]: a high nibble is [x / 16], a low nibble
    [x mod 16], and a field that spans bytes is the base-256 number of its
    parts. *)
Module Layout.

(** The signed value of a [w]-bit two's-complement pattern [u]. *)
Definition twos_complement (w u : Z) : Z :=
  if u <? 2 ^ (w - 1) then u else u - 2 ^ w.

Section Fields.
Variable f : list byte.

Definition id : Z := f.[3].
Definition battery : Z := f.[4] / 16.
Definition battery_ok : Z := if battery =? 0 then 0 else 1.
Definition datetime_raw : Z :=
  (f.[4] mod 16) * 2 ^ 26 + f.[5] * 2 ^ 18 + f.[6] * 2 ^ 10 + f.[7] * 2 ^ 2
  + f.[8] / 64.
Definition channel : Z := (f.[8] / 16) mod 4 + 1.
Definition temperature_field : Z := (f.[8] mod 16) * 256 + f.[9].
Definition temperature_raw : Z := twos_complement 12 temperature_field.
Definition humidity : Z := f.[10].
Definition wind_speed : Z := f.[11].
Definition wind_direction : Z := f.[12] / 16.

(** Physical values. *)
Definition temperature : Q := temperature_raw # 10.
Definition wind_direction_deg : Q := (wind_direction * 45) # 2.
End Fields.

End Layout.

(** ** Values of the floating-point fields *)

(** [t * 0.1f], as a [double], is within 10^-5 of [t / 10]. *)
Definition temp_close (t : Z) : bool :=
  match F32.to_Q (F32.to_double (F32.mul (F32.of_int t) F32.lit_0_1)) with
  | Some q => Qle_bool (Qabs (q - (t # 10))) (1 # 100000)
  | None => false
  end.

(** [(float)x], as a [double], is [x]. *)
Definition speed_exact (x : Z) : bool :=
  match F32.to_Q (F32.to_double (F32.of_int x)) with
  | Some q => Qeq_bool q (inject_Z x)
  | None => false
  end.

(** [n * 22.5f], as a [double], is [45 n / 2]. *)
Definition dir_exact (n : Z) : bool :=
  match F32.to_Q (F32.to_double (F32.mul (F32.of_int n) F32.lit_22_5)) with
  | Some q => Qeq_bool q ((n * 45) # 2)
  | None => false
  end.

(** ** Equal transmissions *)

(** Two rows are equal as captured rows: the same bit count and the same
    bits.  What a row buffer holds behind the last bit does not count. *)
Definition row_equal (a b : bitrow_t) : Prop :=
  row_bits a = row_bits b /\
  forall i, (i < row_bits a)%nat -> row_bit a i = row_bit b i.

(** Two transmissions are equal: the same rows in the same order. *)
Definition same_transmission (t1 t2 : bitbuffer_t) : Prop :=
  Forall2 row_equal t1 t2.

(** A decidable test for [row_equal]. *)
Definition row_equalb (a b : bitrow_t) : bool :=
  (row_bits a =? row_bits b)%nat &&
  forallb (fun i => Bool.eqb (row_bit a i) (row_bit b i)) (seq 0 (row_bits a)).

(** ** Sending a frame *)

(** A frame as it goes on the air: every bit inverted. *)
Definition wire_frame (f : list byte) : list byte := map (invert_byte 8) f.

(** The transmission of a 14-byte frame: one 120-bit row per repeat, the
    inverted frame followed by the repeat counter. *)
Definition transmit (f : list byte) (repeat : list byte) : bitbuffer_t :=
  map (fun rr => mk_row 120 (wire_frame f ++ [rr])) repeat.

(** The reading [d] has the values the field layout gives for the frame
    [f]: the integer fields as they are, the temperature as the raw value
    times 0.1f (within 10^-5 of a tenth of it), the wind speed and
    direction exactly. *)
Definition reading_matches_layout (f : list byte) (d : data_t) : Prop :=
  data_get "id" d = Some (DATA_INT (Layout.id f)) /\
  data_get "battery_ok" d = Some (DATA_INT (Layout.battery_ok f)) /\
  data_get "datetime_raw" d = Some (DATA_INT (Layout.datetime_raw f)) /\
  data_get "channel" d = Some (DATA_INT (Layout.channel f)) /\
  (exists t q,
      data_get "temperature_C" d = Some (DATA_DOUBLE t) /\
      t = F32.to_double (F32.mul (F32.of_int (Layout.temperature_raw f)) F32.lit_0_1) /\
      F32.to_Q t = Some q /\
      (Qabs (q - Layout.temperature f) <= 1 # 100000)%Q) /\
  data_get "humidity" d = Some (DATA_INT (Layout.humidity f)) /\
  (exists s q,
      data_get "wind_avg_m_s" d = Some (DATA_DOUBLE s) /\
      F32.to_Q s = Some q /\ (q == inject_Z (Layout.wind_speed f))%Q) /\
  (exists s q,
      data_get "wind_dir_deg" d = Some (DATA_DOUBLE s) /\
      F32.to_Q s = Some q /\ (q == Layout.wind_direction_deg f)%Q).

(** ** The device entry *)

(** The field names the decoder declares (lines 129-142), without the
    closing [NULL]. *)
Definition output_fields : list string :=
  [ "model"; "id"; "channel"; "battery_ok"; "temperature_C"; "humidity";
    "wind_avg_m_s"; "wind_dir_deg"; "datetime_raw"; "datetime_maybe";
    "mic" ]%string.

(** decoder.h is not among the sources: the modulation stays symbolic and
    [r_device] has the members that lines 144-154 initialise. *)
Inductive modulation_t := OOK_PULSE_PWM.

Record r_device := mk_r_device
  { name : string;
    modulation : modulation_t;
    short_width : Z;
    long_width : Z;
    gap_limit : Z;
    reset_limit : Z;
    sync_width : Z;
    decode_fn : M retval;
    fields : list string }.

Definition emos_e6016 : r_device :=
  {| name := "EMOS E6016 weatherstation with DCF77";
     modulation := OOK_PULSE_PWM;
     short_width := 280;
     long_width := 796;
     gap_limit := 3000;
     reset_limit := 804;
     sync_width := 1836;
     decode_fn := emos_e6016_decode;
     fields := output_fields |}.

(** ** What the decoder looks at *)

(** Two buffers have the same rows as far as the decoder looks: row by row
    the same bit count and the same bytes 0 to 13.  Byte 14, the repeat
    counter, and whatever follows may differ. *)
Definition frame_equal (a b : bitrow_t) : Prop :=
  row_bits a = row_bits b /\
  forall i, (i < 14)%nat -> (row_bytes a).[i] = (row_bytes b).[i].

Definition same_frames (t1 t2 : bitbuffer_t) : Prop :=
  Forall2 frame_equal t1 t2.

(** The row is a copy of the frame [f] as it goes on the air, with some
    repeat counter. *)
Definition copy_of (f : list byte) (row : bitrow_t) : Prop :=
  exists rr, row = mk_row 120 (wire_frame f ++ [rr]).

(** * Properties *)

(** ** Bytes and bits *)

Module U8Facts.

Lemma val_range (x : byte) : 0 <= U8.val x < 256.
Proof.
  unfold U8.val. pose proof (Byte.to_N_bounded x). lia.
Qed.

Lemma val_of_Z (z : Z) : U8.val (U8.of_Z z) = z mod 256.
Proof.
  unfold U8.val, U8.of_Z.
  pose proof (Z.mod_pos_bound z 256 eq_refl) as Hz.
  destruct (Byte.of_N (Z.to_N (z mod 256))) as [x|] eqn:E.
  - apply Byte.to_of_N in E. rewrite E. lia.
  - apply Byte.of_N_None_iff in E. lia.
Qed.

Lemma val_inj (x y : byte) : U8.val x = U8.val y -> x = y.
Proof.
  unfold U8.val. intros H. apply N2Z.inj in H.
  pose proof (Byte.of_to_N x) as Hx. pose proof (Byte.of_to_N y) as Hy.
  congruence.
Qed.

Lemma of_Z_val (x : byte) : U8.of_Z (U8.val x) = x.
Proof.
  apply val_inj. rewrite val_of_Z.
  apply Z.mod_small, val_range.
Qed.

End U8Facts.

Lemma idx_range (b : list byte) (i : nat) : 0 <= b.[i] < 256.
Proof. apply U8Facts.val_range. Qed.

Lemma idx_app_l (b c : list byte) (i : nat) :
  (i < List.length b)%nat -> (b ++ c).[i] = b.[i].
Proof. intros H. unfold idx. now rewrite app_nth1. Qed.

(** A value below 256 is determined by its eight low bits. *)
Lemma byte_bits_inj (x y : Z) :
  0 <= x < 256 -> 0 <= y < 256 ->
  (forall p, 0 <= p < 8 -> Z.testbit x p = Z.testbit y p) -> x = y.
Proof.
  intros Hx Hy H. apply Z.bits_inj'. intros p Hp.
  destruct (Z.lt_ge_cases p 8) as [Hlt|Hge].
  - apply H. lia.
  - rewrite !Z.bits_above_log2; try lia.
    + destruct (Z.eq_dec y 0) as [->|]; [simpl; lia|].
      assert (Z.log2 y < 8) by (apply Z.log2_lt_pow2; lia). lia.
    + destruct (Z.eq_dec x 0) as [->|]; [simpl; lia|].
      assert (Z.log2 x < 8) by (apply Z.log2_lt_pow2; lia). lia.
Qed.

(** ** Inversion, byte by byte and bit by bit *)

Lemma lead_mask_full (k : nat) : (8 <= k)%nat -> lead_mask k = 255.
Proof.
  intros H. unfold lead_mask. replace (8 - k)%nat with 0%nat by lia. reflexivity.
Qed.

Lemma lead_mask_bit (k q : nat) :
  (q < 8)%nat -> Z.testbit (lead_mask k) (Z.of_nat (7 - q)) = (q <? k)%nat.
Proof.
  intros Hq.
  destruct (le_lt_dec 8 k) as [Hk|Hk].
  - rewrite lead_mask_full by assumption.
    replace (q <? k)%nat with true by (symmetry; apply Nat.ltb_lt; lia).
    do 8 (destruct q as [|q]; [reflexivity|]). lia.
  - do 8 (destruct k as [|k];
          [do 8 (destruct q as [|q]; [reflexivity|]); lia|]).
    lia.
Qed.

Lemma invert_byte_val (k : nat) (x : byte) :
  U8.val (invert_byte k x) = Z.lxor (U8.val x) (lead_mask k).
Proof.
  unfold invert_byte. rewrite U8Facts.val_of_Z.
  apply Z.mod_small.
  pose proof (U8Facts.val_range x) as Hx.
  assert (Hm : 0 <= lead_mask k < 256).
  { unfold lead_mask. set (s := Z.shiftl _ _). change 255 with (Z.ones 8).
    rewrite Z.land_ones by lia. apply Z.mod_pos_bound. reflexivity. }
  split.
  - apply Z.lxor_nonneg. lia.
  - destruct (Z.eq_dec (Z.lxor (U8.val x) (lead_mask k)) 0) as [->|Hne]; [lia|].
    assert (0 <= Z.lxor (U8.val x) (lead_mask k)) by (apply Z.lxor_nonneg; lia).
    apply Z.log2_lt_cancel.
    eapply Z.le_lt_trans; [apply Z.log2_lxor; lia|].
    change (Z.log2 256) with 8.
    apply Z.max_lub_lt.
    + destruct (Z.eq_dec (U8.val x) 0) as [->|]; [reflexivity|].
      apply Z.log2_lt_pow2; lia.
    + destruct (Z.eq_dec (lead_mask k) 0) as [->|]; [reflexivity|].
      apply Z.log2_lt_pow2; lia.
Qed.

Lemma invert_byte_full (k : nat) (x : byte) :
  (8 <= k)%nat -> U8.val (invert_byte k x) = 255 - U8.val x.
Proof.
  intros Hk. rewrite invert_byte_val, lead_mask_full by assumption.
  destruct x; reflexivity.
Qed.

Lemma invert_byte_none (x : byte) : invert_byte 0 x = x.
Proof.
  unfold invert_byte. change (lead_mask 0) with 0.
  rewrite Z.lxor_0_r. apply U8Facts.of_Z_val.
Qed.

Lemma invert_byte_involutive (k : nat) (x : byte) :
  invert_byte k (invert_byte k x) = x.
Proof.
  apply U8Facts.val_inj. rewrite !invert_byte_val.
  rewrite Z.lxor_assoc, Z.lxor_nilpotent. apply Z.lxor_0_r.
Qed.

Lemma invert_byte_bit (k q : nat) (x : byte) :
  (q < 8)%nat ->
  Z.testbit (U8.val (invert_byte k x)) (Z.of_nat (7 - q)) =
  xorb (Z.testbit (U8.val x) (Z.of_nat (7 - q))) (q <? k)%nat.
Proof.
  intros Hq. rewrite invert_byte_val, Z.lxor_spec, lead_mask_bit by assumption.
  reflexivity.
Qed.

Lemma nth_invert_bytes (n j : nat) (b : list byte) :
  nth j (invert_bytes n b) x00 = invert_byte (n - 8 * j) (nth j b x00).
Proof.
  unfold invert_bytes.
  set (m := Nat.max (List.length b) ((n + 7) / 8)).
  destruct (lt_dec j m) as [Hj|Hj].
  - rewrite (nth_indep _ x00 (invert_byte (n - 8 * 0) (nth 0%nat b x00)))
      by (rewrite length_map, length_seq; exact Hj).
    rewrite (map_nth (fun j => invert_byte (n - 8 * j) (nth j b x00))).
    rewrite seq_nth by exact Hj. reflexivity.
  - rewrite nth_overflow by (rewrite length_map, length_seq; lia).
    assert (Hlen : (List.length b <= j)%nat) by lia.
    assert (Hn : (n <= 8 * j)%nat).
    { assert ((n + 7) / 8 <= j)%nat by lia.
      pose proof (Nat.div_mod_eq (n + 7) 8).
      pose proof (Nat.mod_upper_bound (n + 7) 8). lia. }
    rewrite (nth_overflow b) by exact Hlen.
    replace (n - 8 * j)%nat with 0%nat by lia.
    symmetry. apply invert_byte_none.
Qed.

Lemma idx_invert_bytes (n j : nat) (b : list byte) :
  (8 * j + 8 <= n)%nat -> (invert_bytes n b).[j] = 255 - b.[j].
Proof.
  intros H. unfold idx. rewrite nth_invert_bytes.
  apply invert_byte_full. lia.
Qed.

(** Every bit of the row is inverted, and nothing behind its last bit. *)
Lemma row_bit_invert (row : bitrow_t) (i : nat) :
  row_bit (invert_row row) i =
  if (i <? row_bits row)%nat then negb (row_bit row i) else row_bit row i.
Proof.
  unfold row_bit, invert_row, idx. cbn [row_bytes row_bits].
  rewrite nth_invert_bytes.
  pose proof (Nat.div_mod_eq i 8) as Hdm.
  pose proof (Nat.mod_upper_bound i 8 ltac:(lia)) as Hq.
  rewrite invert_byte_bit by exact Hq.
  destruct (Nat.ltb_spec i (row_bits row)) as [Hi|Hi].
  - replace (i mod 8 <? row_bits row - 8 * (i / 8))%nat with true
      by (symmetry; apply Nat.ltb_lt; lia).
    apply xorb_true_r.
  - replace (i mod 8 <? row_bits row - 8 * (i / 8))%nat with false
      by (symmetry; apply Nat.ltb_ge; lia).
    apply xorb_false_r.
Qed.

(** ** Consensus matching *)

Lemma rows_agree_iff (n : nat) (a b : bitrow_t) :
  rows_agree n a b = true <-> bit_identical n a b.
Proof.
  unfold rows_agree, bit_identical.
  rewrite !andb_true_iff, !Nat.leb_le, forallb_forall.
  split.
  - intros [[Ha Hb] H]. repeat split; try assumption.
    intros i Hi. apply eqb_prop, H, in_seq. lia.
  - intros (Ha & Hb & H). repeat split; try assumption.
    intros i Hi. apply in_seq in Hi. rewrite H by lia. apply eqb_reflx.
Qed.

Lemma bit_identical_sym (n : nat) (a b : bitrow_t) :
  bit_identical n a b -> bit_identical n b a.
Proof.
  intros (Ha & Hb & H). repeat split; try assumption.
  intros i Hi. symmetry. now apply H.
Qed.

Lemma bit_identical_trans (n : nat) (a b c : bitrow_t) :
  bit_identical n a b -> bit_identical n b c -> bit_identical n a c.
Proof.
  intros (Ha & Hb & H) (_ & Hc & H'). repeat split; try assumption.
  intros i Hi. rewrite H by assumption. now apply H'.
Qed.

Lemma bit_identical_refl_l (n : nat) (a b : bitrow_t) :
  bit_identical n a b -> bit_identical n a a.
Proof.
  intros (Ha & _ & _). repeat split; assumption.
Qed.

Section FindFirst.
Variable f : nat -> bool.

Lemma find_seq_some (len s i : nat) :
  find f (seq s len) = Some i ->
  (s <= i < s + len)%nat /\ f i = true /\
  forall j, (s <= j < i)%nat -> f j = false.
Proof.
  revert s. induction len as [|len IH]; intros s; simpl.
  - discriminate.
  - destruct (f s) eqn:Hs.
    + intros [= <-]. repeat split; try lia. assumption.
    + intros H. apply IH in H. destruct H as (Hr & Hi & Hj).
      repeat split; try lia; try assumption.
      intros j Hjr. destruct (Nat.eq_dec j s) as [->|]; [assumption|].
      apply Hj. lia.
Qed.

Lemma find_seq_none (len s : nat) :
  find f (seq s len) = None ->
  forall j, (s <= j < s + len)%nat -> f j = false.
Proof.
  intros H j Hj. apply (find_none f _ H). apply in_seq. lia.
Qed.
End FindFirst.

(** The rows of a buffer, listed through their indices. *)
Lemma buffer_rows (bitbuffer : bitbuffer_t) :
  bitbuffer = map (fun i => nth i bitbuffer empty_row) (seq 0 (List.length bitbuffer)).
Proof.
  apply nth_ext with (d := empty_row) (d' := nth 0%nat bitbuffer empty_row).
  - now rewrite length_map, length_seq.
  - intros i Hi.
    rewrite (map_nth (fun i => nth i bitbuffer empty_row)).
    now rewrite seq_nth.
Qed.

Lemma filter_map_length {A B} (p : B -> bool) (h : A -> B) (l : list A) :
  List.length (filter p (map h l)) = List.length (filter (fun x => p (h x)) l).
Proof.
  induction l as [|x l IH]; simpl; [reflexivity|].
  destruct (p (h x)); simpl; congruence.
Qed.

Lemma count_repeats_indices (bitbuffer : bitbuffer_t) (r n : nat) :
  count_repeats bitbuffer r n = List.length (repeats_of bitbuffer r n).
Proof.
  unfold count_repeats, repeats_of.
  rewrite (buffer_rows bitbuffer) at 2.
  apply filter_map_length.
Qed.

Lemma repeats_of_spec (bitbuffer : bitbuffer_t) (r n i : nat) :
  In i (repeats_of bitbuffer r n) <->
  (i < List.length bitbuffer)%nat /\
  bit_identical n (nth r bitbuffer empty_row) (nth i bitbuffer empty_row).
Proof.
  unfold repeats_of. rewrite filter_In, in_seq, rows_agree_iff. intuition lia.
Qed.

(** A row with [k >= 1] repeats is a member of a consensus group. *)
Lemma repeats_form_group (bitbuffer : bitbuffer_t) (r n k : nat) :
  (1 <= k)%nat -> (r < List.length bitbuffer)%nat ->
  (k <= count_repeats bitbuffer r n)%nat ->
  consensus_group bitbuffer n k (repeats_of bitbuffer r n) /\
  In r (repeats_of bitbuffer r n).
Proof.
  intros Hk Hr Hc. rewrite count_repeats_indices in Hc.
  assert (Hself : In r (repeats_of bitbuffer r n)).
  { destruct (repeats_of bitbuffer r n) as [|i g] eqn:E; [simpl in Hc; lia|].
    assert (Hi : In i (repeats_of bitbuffer r n)) by (rewrite E; now left).
    rewrite <- E. apply repeats_of_spec in Hi. apply repeats_of_spec.
    split; [assumption|]. eapply bit_identical_refl_l, Hi. }
  split; [|assumption].
  constructor.
  - apply NoDup_filter, seq_NoDup.
  - assumption.
  - intros i Hi. now apply repeats_of_spec in Hi.
  - intros i j Hi Hj. apply repeats_of_spec in Hi, Hj.
    eapply bit_identical_trans; [apply bit_identical_sym, Hi|apply Hj].
Qed.

(** Every member of a consensus group of size [k] has [k] repeats. *)
Lemma group_member_repeats (bitbuffer : bitbuffer_t) (n k : nat) (g : list nat) (i : nat) :
  consensus_group bitbuffer n k g -> In i g ->
  (k <= count_repeats bitbuffer i n)%nat.
Proof.
  intros [Hnd Hsz Hrows Hag] Hi.
  rewrite count_repeats_indices.
  apply Nat.le_trans with (List.length g); [assumption|].
  apply NoDup_incl_length; [assumption|].
  intros j Hj. apply repeats_of_spec. split; [now apply Hrows|now apply Hag].
Qed.

(** What [bitbuffer_find_repeated_row] returns: the first row index with
    enough repeats, or -1 when no row has. *)
Lemma find_repeated_row_cases (bitbuffer : bitbuffer_t) (k n : nat) :
  (exists r,
      bitbuffer_find_repeated_row bitbuffer k n = Z.of_nat r /\
      (r < List.length bitbuffer)%nat /\
      (k <= count_repeats bitbuffer r n)%nat /\
      forall i, (i < r)%nat -> (count_repeats bitbuffer i n < k)%nat)
  \/
  (bitbuffer_find_repeated_row bitbuffer k n = -1 /\
   forall i, (i < List.length bitbuffer)%nat -> (count_repeats bitbuffer i n < k)%nat).
Proof.
  unfold bitbuffer_find_repeated_row.
  destruct (find _ _) as [r|] eqn:E.
  - left. exists r. apply find_seq_some in E. destruct E as (Hr & Hc & Hfirst).
    repeat split; try lia.
    + now apply Nat.leb_le.
    + intros i Hi. apply Nat.leb_gt, Hfirst. lia.
  - right. split; [reflexivity|].
    intros i Hi. apply Nat.leb_gt.
    apply (find_seq_none _ _ _ E). lia.
Qed.

(** ** The paths through the decoder *)

(** Every decode call takes one of the five paths. *)
Lemma decode_takes_path (bitbuffer : bitbuffer_t) :
  decode_path bitbuffer (fst (decode bitbuffer)) (snd (decode bitbuffer)).
Proof.
  unfold decode, emos_e6016_decode, bind, read, ret, decoder_log,
    decoder_output_data, do_bitbuffer_invert, emit.
  cbn [buffer calls fst snd].
  change (120 - 8)%nat with 112%nat.
  destruct (find_repeated_row_cases bitbuffer 3 112)
    as [(r & Hr & _)|[Hnone _]].
  2:{ rewrite Hnone. cbn. now apply path_no_repeat. }
  rewrite Hr.
  replace (Z.of_nat r <? 0) with false by (symmetry; apply Z.ltb_ge; lia).
  rewrite Nat2Z.id. cbn [buffer calls fst snd app].
  destruct (Nat.eqb_spec (bits_per_row bitbuffer r) 120) as [Hlen|Hlen];
    cbn [negb buffer calls fst snd app].
  2:{ now apply path_length. }
  destruct (Z.eqb_spec (bb bitbuffer r).[0] 0x55) as [H0|H0];
    cbn [negb orb buffer calls fst snd app].
  2:{ apply path_model; try assumption. intros (? & _); contradiction. }
  destruct (Z.eqb_spec (bb bitbuffer r).[1] 0x5a) as [H1|H1];
    cbn [negb orb buffer calls fst snd app].
  2:{ apply path_model; try assumption. intros (_ & ? & _); contradiction. }
  destruct (Z.eqb_spec (bb bitbuffer r).[2] 0x7c) as [H2|H2];
    cbn [negb orb buffer calls fst snd app].
  2:{ apply path_model; try assumption. intros (_ & _ & ?); contradiction. }
  destruct (Z.eqb_spec (Z.land (add_bytes (bb (bitbuffer_invert bitbuffer) r) 13) 0xff)
                       (bb (bitbuffer_invert bitbuffer) r).[13]) as [Hc|Hc];
    cbn [negb buffer calls fst snd app].
  - apply path_output; try assumption. now repeat split.
  - apply path_checksum; try assumption. now repeat split.
Qed.

Lemma bits_per_row_invert (bitbuffer : bitbuffer_t) (r : nat) :
  bits_per_row (bitbuffer_invert bitbuffer) r = bits_per_row bitbuffer r.
Proof.
  unfold bits_per_row, bitbuffer_invert.
  change empty_row with (invert_row empty_row) at 1.
  now rewrite map_nth.
Qed.

Lemma bb_invert (bitbuffer : bitbuffer_t) (r : nat) :
  bb (bitbuffer_invert bitbuffer) r =
  invert_bytes (bits_per_row bitbuffer r) (bb bitbuffer r).
Proof.
  unfold bb, bits_per_row, bitbuffer_invert.
  change empty_row with (invert_row empty_row) at 1.
  now rewrite map_nth.
Qed.

(** In a 120-bit row every one of the 15 bytes is complemented. *)
Lemma frame_inverted (bitbuffer : bitbuffer_t) (r i : nat) :
  bits_per_row bitbuffer r = 120%nat -> (i < 15)%nat ->
  (bb (bitbuffer_invert bitbuffer) r).[i] = 255 - (bb bitbuffer r).[i].
Proof.
  intros Hlen Hi. rewrite bb_invert, Hlen. apply idx_invert_bytes. lia.
Qed.

(** ** The checksum *)

Lemma add_bytes_low8 (b : list byte) : Z.land (add_bytes b 13) 0xff = checksum b.
Proof.
  unfold add_bytes, checksum. cbn [seq fold_left].
  change 255 with (Z.ones 8). rewrite Z.land_ones by lia.
  reflexivity.
Qed.

(** The sum of 13 bytes fits an [int]. *)
Lemma add_bytes_range (b : list byte) : 0 <= add_bytes b 13 <= 13 * 255.
Proof.
  unfold add_bytes. cbn [seq fold_left].
  pose proof (idx_range b 0); pose proof (idx_range b 1);
  pose proof (idx_range b 2); pose proof (idx_range b 3);
  pose proof (idx_range b 4); pose proof (idx_range b 5);
  pose proof (idx_range b 6); pose proof (idx_range b 7);
  pose proof (idx_range b 8); pose proof (idx_range b 9);
  pose proof (idx_range b 10); pose proof (idx_range b 11);
  pose proof (idx_range b 12). lia.
Qed.

(** Two paths of the same call went through the same row. *)
Ltac same_row :=
  match goal with
  | H1 : bitbuffer_find_repeated_row ?buf 3 112 = Z.of_nat ?r,
    H2 : bitbuffer_find_repeated_row ?buf 3 112 = Z.of_nat ?r' |- _ =>
      assert (r' = r) by (apply Nat2Z.inj; congruence); subst r'; clear H2
  | H1 : bitbuffer_find_repeated_row ?buf 3 112 = Z.of_nat ?r,
    H2 : bitbuffer_find_repeated_row ?buf 3 112 = -1 |- _ =>
      exfalso; rewrite H1 in H2; lia
  end.

(** Case analysis on the path of [decode bitbuffer]. *)
Ltac decode_paths bitbuffer :=
  let P := fresh "P" in
  pose proof (decode_takes_path bitbuffer) as P;
  destruct (decode bitbuffer) as [res w]; cbn [fst snd] in *;
  inversion P; subst; clear P; try same_row; try contradiction;
  try congruence.

(** C1: once the representative row has passed the length and signature
    checks and the buffer has been inverted, the decoder sums the first 13
    bytes of the inverted frame modulo 256 and compares the result with
    byte 13.  If they differ the call fails with [DECODE_FAIL_MIC] and no
    reading is put out; if they agree, exactly one reading is put out, built
    from the inverted frame and tagged "CHECKSUM". *)
Theorem checksum_gate (bitbuffer : bitbuffer_t) (r : nat) :
  bitbuffer_find_repeated_row bitbuffer 3 112 = Z.of_nat r ->
  bits_per_row bitbuffer r = 120%nat ->
  model_ok (bb bitbuffer r) ->
  let b := bb (bitbuffer_invert bitbuffer) r in
  (forall i, (i < 15)%nat -> b.[i] = 255 - (bb bitbuffer r).[i]) /\
  (checksum b <> b.[13] ->
     fst (decode bitbuffer) = Abort DECODE_FAIL_MIC /\
     outputs (calls (snd (decode bitbuffer))) = []) /\
  (checksum b = b.[13] ->
     fst (decode bitbuffer) = Events 1 /\
     outputs (calls (snd (decode bitbuffer))) = [data b] /\
     data_get "mic" (data b) = Some (DATA_STRING "CHECKSUM")).
Proof.
  intros Hr Hlen Hmodel b.
  split; [intros i Hi; now apply frame_inverted|].
  subst b. rewrite <- add_bytes_low8.
  split; intros Hsum; decode_paths bitbuffer; repeat split; reflexivity.
Qed.

Lemma checksum_gate_witness :
  let b := bb (bitbuffer_invert raw_data) 0 in
  fst (decode raw_data) = Events 1 /\
  outputs (calls (snd (decode raw_data))) = [data b] /\
  data_get "mic" (data b) = Some (DATA_STRING "CHECKSUM").
Proof.
  intros b.
  destruct (checksum_gate raw_data 0) as (_ & _ & H).
  - reflexivity.
  - reflexivity.
  - repeat split; reflexivity.
  - apply H. reflexivity.
Defined.

(** C2: when no three rows of the transmission are bit-identical over their
    first 120 - 8 = 112 bits, the call returns [DECODE_ABORT_EARLY] having
    done nothing but log the failure: the buffer is untouched, nothing is
    validated, inverted, summed or put out.  When such a group exists, the
    decoder selects a row of such a group, namely the first row of the
    buffer that belongs to any, and goes on with it. *)
Theorem consensus_or_abort (bitbuffer : bitbuffer_t) :
  ((~ exists g, consensus_group bitbuffer 112 3 g) ->
     decode bitbuffer =
     (Abort DECODE_ABORT_EARLY,
      mk_world bitbuffer [Call_decoder_log 2 __func__ "Repeated row fail"]))
  /\
  ((exists g, consensus_group bitbuffer 112 3 g) ->
     exists r g,
       bitbuffer_find_repeated_row bitbuffer 3 112 = Z.of_nat r /\
       consensus_group bitbuffer 112 3 g /\ In r g /\
       (forall g' i, consensus_group bitbuffer 112 3 g' -> In i g' -> (r <= i)%nat) /\
       nth_error (calls (snd (decode bitbuffer))) 0 = Some (found_log r)).
Proof.
  split.
  - intros Hno.
    assert (Hnone : bitbuffer_find_repeated_row bitbuffer 3 112 = -1).
    { destruct (find_repeated_row_cases bitbuffer 3 112)
        as [(r & _ & Hr & Hc & _)|[Hnone _]]; [|assumption].
      exfalso. apply Hno. exists (repeats_of bitbuffer r 112).
      apply repeats_form_group; [lia|assumption|assumption]. }
    pose proof (decode_takes_path bitbuffer) as P.
    destruct (decode bitbuffer) as [res w]. cbn [fst snd] in P.
    inversion P; subst; try same_row. reflexivity.
  - intros [g0 G0].
    assert (Hmem : exists i0, In i0 g0).
    { destruct g0 as [|i0 g0]; [|exists i0; now left].
      pose proof (group_size _ _ _ _ G0) as Hsz. simpl in Hsz. lia. }
    destruct Hmem as [i0 Hi0].
    pose proof (group_member_repeats _ _ _ _ _ G0 Hi0) as Hc0.
    pose proof (group_rows _ _ _ _ G0 _ Hi0) as Hlt0.
    destruct (find_repeated_row_cases bitbuffer 3 112)
      as [(r & Hfind & Hr & Hc & Hfirst)|[_ Hnone]].
    2:{ specialize (Hnone _ Hlt0). lia. }
    exists r, (repeats_of bitbuffer r 112).
    destruct (repeats_form_group bitbuffer r 112 3) as [G Hin];
      [lia|assumption|assumption|].
    do 3 (split; [assumption|]). split.
    + intros g' i G' Hi.
      pose proof (group_member_repeats _ _ _ _ _ G' Hi) as Hci.
      destruct (le_lt_dec r i) as [|Hlt]; [assumption|].
      specialize (Hfirst _ Hlt). lia.
    + pose proof (decode_takes_path bitbuffer) as P.
      destruct (decode bitbuffer) as [res w]. cbn [fst snd] in *.
      inversion P; subst; try same_row; reflexivity.
Qed.

Lemma consensus_or_abort_witness :
  decode [raw_row xff] =
    (Abort DECODE_ABORT_EARLY,
     mk_world [raw_row xff] [Call_decoder_log 2 __func__ "Repeated row fail"])
  /\
  exists r g,
    bitbuffer_find_repeated_row raw_data 3 112 = Z.of_nat r /\
    consensus_group raw_data 112 3 g /\ In r g /\
    (forall g' i, consensus_group raw_data 112 3 g' -> In i g' -> (r <= i)%nat) /\
    nth_error (calls (snd (decode raw_data))) 0 = Some (found_log r).
Proof.
  split.
  - apply (proj1 (consensus_or_abort [raw_row xff])).
    intros [g G].
    destruct g as [|i g].
    + pose proof (group_size _ _ _ _ G) as Hsz. simpl in Hsz. lia.
    + pose proof (group_member_repeats _ _ _ _ _ G (or_introl eq_refl)) as Hc.
      pose proof (group_rows _ _ _ _ G i (or_introl eq_refl)) as Hi.
      simpl in Hi. assert (i = 0%nat) by lia. subst i.
      vm_compute in Hc. lia.
  - apply (proj2 (consensus_or_abort raw_data)).
    exists [0; 1; 2]%nat. constructor.
    + repeat constructor; simpl; intuition lia.
    + simpl. lia.
    + simpl. intuition lia.
    + intros i j Hi Hj. apply rows_agree_iff.
      simpl in Hi, Hj.
      repeat (destruct Hi as [<-|Hi]); repeat (destruct Hj as [<-|Hj]);
        try contradiction; vm_compute; reflexivity.
Defined.

(** ** Order of validation and inversion *)

(** C3, as stated, fails: not every decode call inverts the buffer once.
    A call that stops at the consensus search (two copies only), at the
    length check (121-bit rows) or at the signature check (first byte 54)
    does not invert at all. *)
Lemma aborted_calls_do_not_invert :
  let two := [raw_row xff; raw_row xfe] in
  let long := map (fun rr => mk_row 121 (row_bytes (raw_row rr) ++ [x00])) [xff; xfe; xfd] in
  let odd := map (fun rr => mk_row 120 (x54 :: tl (row_bytes (raw_row rr)))) [xff; xfe; xfd] in
  (fst (decode two) = Abort DECODE_ABORT_EARLY /\
   inversions (calls (snd (decode two))) = 0%nat) /\
  (fst (decode long) = Abort DECODE_ABORT_LENGTH /\
   inversions (calls (snd (decode long))) = 0%nat) /\
  (fst (decode odd) = Abort DECODE_ABORT_EARLY /\
   inversions (calls (snd (decode odd))) = 0%nat).
Proof.
  vm_compute. repeat split; reflexivity.
Qed.

(** C3, amended: a decode call inverts the buffer exactly once when the
    representative row passes the length check and the signature check
    (both made on the bytes as received, the signature being 55 5A 7C), and
    not at all otherwise; so never twice and never before validation.  The
    inversion comes after the two checks and before the checksum verdict and
    the extraction, which both work on the inverted bytes. *)
Theorem inversion_once (bitbuffer : bitbuffer_t) :
  let res := fst (decode bitbuffer) in
  let w := snd (decode bitbuffer) in
  (exists r,
      validated bitbuffer r /\
      inversions (calls w) = 1%nat /\
      buffer w = bitbuffer_invert bitbuffer /\
      exists verdict,
        calls w = [found_log r; Call_bitbuffer_invert; verdict] /\
        let b := bb (bitbuffer_invert bitbuffer) r in
        ((checksum b <> b.[13] /\
          verdict = Call_decoder_log 2 __func__ "Checksum fail" /\
          res = Abort DECODE_FAIL_MIC)
         \/
         (checksum b = b.[13] /\
          verdict = Call_decoder_output_data (data b) /\
          res = Events 1)))
  \/
  ((~ exists r, validated bitbuffer r) /\
   inversions (calls w) = 0%nat /\
   buffer w = bitbuffer /\
   outputs (calls w) = [] /\
   (res = Abort DECODE_ABORT_EARLY \/ res = Abort DECODE_ABORT_LENGTH)).
Proof.
  intros res w. subst res w.
  pose proof (decode_takes_path bitbuffer) as P.
  destruct (decode bitbuffer) as [res w]. cbn [fst snd] in *.
  inversion P; subst; cbn [calls buffer].
  - right. repeat split; auto.
    intros (r & Hr & _). same_row.
  - right. repeat split; auto.
    intros (r' & Hr & Hlen & _). same_row. contradiction.
  - right. repeat split; auto.
    intros (r' & Hr & _ & Hm). same_row. contradiction.
  - left. exists r. split; [unfold validated; auto|].
    do 2 (split; [reflexivity|]).
    eexists. split; [reflexivity|].
    left. rewrite <- add_bytes_low8. auto.
  - left. exists r. split; [unfold validated; auto|].
    do 2 (split; [reflexivity|]).
    eexists. split; [reflexivity|].
    right. rewrite <- add_bytes_low8. auto.
Qed.

(** ** The field layout of section 4.5 *)

(** *** Bit operations as arithmetic *)

Lemma lor_shiftl_add (hi lo k : Z) :
  0 <= k -> 0 <= lo < 2 ^ k -> Z.lor (Z.shiftl hi k) lo = hi * 2 ^ k + lo.
Proof.
  intros Hk Hlo.
  assert (Hdisj : Z.land (Z.shiftl hi k) lo = 0).
  { apply Z.bits_inj'. intros n Hn.
    rewrite Z.land_spec, Z.bits_0.
    destruct (Z.lt_ge_cases n k) as [Hlt|Hge].
    - rewrite Z.shiftl_spec_low by assumption. reflexivity.
    - rewrite <- (Z.mod_small lo (2 ^ k)) by assumption.
      rewrite Z.mod_pow2_bits_high by lia. apply andb_false_r. }
  pose proof (Z.add_lor_land (Z.shiftl hi k) lo) as H.
  rewrite Hdisj, Z.add_0_r, Z.shiftl_mul_pow2 in H by assumption.
  rewrite Z.shiftl_mul_pow2 by assumption. exact H.
Qed.

Lemma hi_nibble (x : Z) : 0 <= x < 256 -> Z.shiftr (Z.land x 0xf0) 4 = x / 16.
Proof.
  intros Hx. apply Z.bits_inj'. intros n Hn.
  rewrite Z.shiftr_spec by assumption.
  rewrite Z.land_spec.
  change 16 with (2 ^ 4). rewrite <- Z.shiftr_div_pow2 by lia.
  rewrite Z.shiftr_spec by assumption.
  destruct (Z.lt_ge_cases n 4) as [Hlt|Hge].
  - assert (Hb : Z.testbit 240 (n + 4) = true).
    { assert (n = 0 \/ n = 1 \/ n = 2 \/ n = 3) as [->|[->|[->| ->]]] by lia;
        reflexivity. }
    rewrite Hb. apply andb_true_r.
  - rewrite <- (Z.mod_small x (2 ^ 8)) by (change (2 ^ 8) with 256; lia).
    rewrite Z.mod_pow2_bits_high by lia. reflexivity.
Qed.

(** *** Temperature *)

Lemma temperature_field_range (b : list byte) :
  0 <= Layout.temperature_field b < 4096.
Proof.
  unfold Layout.temperature_field.
  pose proof (idx_range b 9). pose proof (Z.mod_pos_bound b.[8] 16 eq_refl).
  lia.
Qed.

(** Line 99: the 12-bit field sits in the high 12 bits of the [int16_t]. *)
Lemma temp_raw_placed (b : list byte) :
  temp_raw b = 16 * Layout.temperature_raw b.
Proof.
  pose proof (temperature_field_range b) as Hf.
  pose proof (idx_range b 9) as H9.
  unfold temp_raw.
  change 15 with (Z.ones 4). rewrite Z.land_ones by lia.
  rewrite (Z.shiftl_mul_pow2 b.[9] 4) by lia.
  rewrite lor_shiftl_add by (change (2 ^ 12) with 4096; change (2 ^ 4) with 16; lia).
  unfold Layout.temperature_raw, Layout.twos_complement.
  unfold Layout.temperature_field in *.
  change (2 ^ 4) with 16 in *. change (2 ^ 12) with 4096.
  change (2 ^ (12 - 1)) with 2048.
  unfold int16_t.
  destruct (Z.ltb_spec (b.[8] mod 16 * 256 + b.[9]) 2048) as [Hlt|Hge].
  - rewrite Z.mod_small by lia. lia.
  - replace (b.[8] mod 16 * 4096 + b.[9] * 16 + 32768)
      with ((b.[8] mod 16 * 4096 + b.[9] * 16 - 32768) + 1 * 65536) by lia.
    rewrite Z.mod_add by lia. rewrite Z.mod_small by lia. lia.
Qed.

(** Line 100: the arithmetic shift recovers the signed 12-bit value. *)
Lemma temp_raw_shifted (b : list byte) :
  Z.shiftr (temp_raw b) 4 = Layout.temperature_raw b.
Proof.
  rewrite temp_raw_placed, Z.shiftr_div_pow2 by lia.
  change (2 ^ 4) with 16. rewrite Z.mul_comm. apply Z.div_mul. lia.
Qed.

Lemma temperature_raw_range (b : list byte) :
  -2048 <= Layout.temperature_raw b < 2048.
Proof.
  pose proof (temperature_field_range b) as Hf.
  unfold Layout.temperature_raw, Layout.twos_complement.
  change (2 ^ (12 - 1)) with 2048. change (2 ^ 12) with 4096.
  destruct (Z.ltb_spec (Layout.temperature_field b) 2048); lia.
Qed.

(** [temp_raw] is an [int16_t] value indeed. *)
Lemma temp_raw_range (b : list byte) : -32768 <= temp_raw b < 32768.
Proof.
  rewrite temp_raw_placed. pose proof (temperature_raw_range b). lia.
Qed.

(** *** The other fields *)

Lemma lor_mul_add (q lo k : Z) :
  0 <= k -> 0 <= lo < 2 ^ k -> Z.lor (q * 2 ^ k) lo = q * 2 ^ k + lo.
Proof.
  intros Hk Hlo. rewrite <- Z.shiftl_mul_pow2 by assumption.
  rewrite lor_shiftl_add by assumption.
  now rewrite Z.shiftl_mul_pow2.
Qed.

Lemma battery_layout (b : list byte) : battery b = Layout.battery b.
Proof. apply hi_nibble, idx_range. Qed.

Lemma battery_ok_layout (b : list byte) : battery_ok b = Layout.battery_ok b.
Proof. unfold battery_ok, Layout.battery_ok. now rewrite battery_layout. Qed.

Lemma dir_raw_layout (b : list byte) : dir_raw b = Layout.wind_direction b.
Proof. apply hi_nibble, idx_range. Qed.

Lemma channel_layout (b : list byte) : channel b = Layout.channel b.
Proof.
  unfold channel, Layout.channel.
  rewrite Z.shiftr_div_pow2 by lia.
  change 3 with (Z.ones 2). rewrite Z.land_ones by lia.
  reflexivity.
Qed.

Lemma dcf77_raw_layout (b : list byte) : dcf77_raw b = Layout.datetime_raw b.
Proof.
  pose proof (idx_range b 4) as H4. pose proof (idx_range b 5) as H5.
  pose proof (idx_range b 6) as H6. pose proof (idx_range b 7) as H7.
  pose proof (idx_range b 8) as H8.
  pose proof (Z.mod_pos_bound b.[4] 16 eq_refl) as Hn.
  assert (H8' : 0 <= b.[8] / 64 < 4).
  { split; [apply Z.div_pos; lia|apply Z.div_lt_upper_bound; lia]. }
  unfold dcf77_raw, Layout.datetime_raw.
  change 15 with (Z.ones 4). rewrite Z.land_ones by lia.
  rewrite !Z.shiftl_mul_pow2, Z.shiftr_div_pow2 by lia.
  change (2 ^ 4) with 16. change (2 ^ 6) with 64.
  set (n := b.[4] mod 16) in *.
  rewrite (lor_mul_add n) by (change (2 ^ 26) with (256 * 2 ^ 18); lia).
  replace (n * 2 ^ 26 + b.[5] * 2 ^ 18)
    with ((n * 2 ^ 8 + b.[5]) * 2 ^ 18) by lia.
  rewrite lor_mul_add by (change (2 ^ 18) with (256 * 2 ^ 10); lia).
  replace ((n * 2 ^ 8 + b.[5]) * 2 ^ 18 + b.[6] * 2 ^ 10)
    with (((n * 2 ^ 8 + b.[5]) * 2 ^ 8 + b.[6]) * 2 ^ 10) by lia.
  rewrite lor_mul_add by (change (2 ^ 10) with (256 * 2 ^ 2); lia).
  replace (((n * 2 ^ 8 + b.[5]) * 2 ^ 8 + b.[6]) * 2 ^ 10 + b.[7] * 2 ^ 2)
    with ((((n * 2 ^ 8 + b.[5]) * 2 ^ 8 + b.[6]) * 2 ^ 8 + b.[7]) * 2 ^ 2) by lia.
  rewrite lor_mul_add by (change (2 ^ 2) with 4; lia).
  lia.
Qed.

(** The packed date and time is a 30-bit number: no [int] overflows while
    it is put together. *)
Lemma dcf77_raw_range (b : list byte) : 0 <= dcf77_raw b < 2 ^ 30.
Proof.
  rewrite dcf77_raw_layout. unfold Layout.datetime_raw.
  pose proof (idx_range b 5) as H5.
  pose proof (idx_range b 6) as H6. pose proof (idx_range b 7) as H7.
  pose proof (idx_range b 8) as H8.
  pose proof (Z.mod_pos_bound b.[4] 16 eq_refl) as Hn.
  assert (H8' : 0 <= b.[8] / 64 < 4).
  { split; [apply Z.div_pos; lia|apply Z.div_lt_upper_bound; lia]. }
  change (2 ^ 30) with (16 * 2 ^ 26). change (2 ^ 26) with 67108864.
  change (2 ^ 18) with 262144. change (2 ^ 10) with 1024. change (2 ^ 2) with 4.
  lia.
Qed.

Lemma channel_bounds (b : list byte) : 1 <= channel b <= 4.
Proof.
  rewrite channel_layout. unfold Layout.channel.
  pose proof (Z.mod_pos_bound (b.[8] / 16) 4 eq_refl). lia.
Qed.

(** C10: every reading the decoder puts out has a channel between 1 and 4:
    the channel is the 2-bit field in bits 5..4 of byte 8 of the inverted
    frame, plus 1. *)
Theorem channel_in_range (bitbuffer : bitbuffer_t) (d : data_t) :
  In d (outputs (calls (snd (decode bitbuffer)))) ->
  exists r c,
    data_get "channel" d = Some (DATA_INT c) /\
    c = ((bb (bitbuffer_invert bitbuffer) r).[8] / 16) mod 4 + 1 /\
    1 <= c <= 4.
Proof.
  intros Hd.
  pose proof (decode_takes_path bitbuffer) as P.
  destruct (decode bitbuffer) as [res w]. cbn [fst snd] in *.
  inversion P; subst; cbn in Hd; try contradiction.
  destruct Hd as [<-|[]].
  exists r, (channel (bb (bitbuffer_invert bitbuffer) r)).
  split; [reflexivity|].
  split; [apply channel_layout|apply channel_bounds].
Qed.

Lemma channel_in_range_witness :
  exists r c,
    data_get "channel" (data (bb (bitbuffer_invert raw_data) 0)) = Some (DATA_INT c) /\
    c = ((bb (bitbuffer_invert raw_data) r).[8] / 16) mod 4 + 1 /\
    1 <= c <= 4.
Proof.
  apply (channel_in_range raw_data).
  vm_compute. left. reflexivity.
Defined.

(** ** The capture of the source comment *)

(** C5, as stated, fails: the six-row capture does not decode to id 0,
    battery_ok 0, humidity 55 and wind speed 218; nor does the sum of the
    first 13 bytes as received (0x2c) match the byte 0x38 at offset 13. *)
Lemma raw_data_not_as_claimed :
  ~ (exists d,
        outputs (calls (snd (decode raw_data))) = [d] /\
        data_get "id" d = Some (DATA_INT 0) /\
        data_get "channel" d = Some (DATA_INT 1) /\
        data_get "battery_ok" d = Some (DATA_INT 0) /\
        data_get "humidity" d = Some (DATA_INT 55) /\
        data_get "wind_avg_m_s" d = Some (DATA_DOUBLE (F32.to_double (F32.of_int 218))))
  /\ checksum (bb raw_data 0) <> (bb raw_data 0).[13].
Proof.
  split.
  - intros (d & Hout & Hid & _).
    vm_compute in Hout. injection Hout as <-.
    vm_compute in Hid. discriminate.
  - vm_compute. discriminate.
Qed.

(** C5, amended: the six-row capture decodes, through row 0, to one reading
    with id 255, channel 1, battery_ok 1 (battery nibble 9), humidity 37 and
    wind speed 0, as the "Decoded example" of the source comment has it; the
    frame the fields are read from is the inverted one, whose byte 13 (0xc7)
    is the sum modulo 256 of its first 13 bytes. *)
Theorem raw_data_decodes :
  let b := bb (bitbuffer_invert raw_data) 0 in
  fst (decode raw_data) = Events 1 /\
  outputs (calls (snd (decode raw_data))) = [data b] /\
  data_get "id" (data b) = Some (DATA_INT 255) /\
  data_get "channel" (data b) = Some (DATA_INT 1) /\
  battery b = 9 /\
  data_get "battery_ok" (data b) = Some (DATA_INT 1) /\
  data_get "humidity" (data b) = Some (DATA_INT 37) /\
  data_get "wind_avg_m_s" (data b) = Some (DATA_DOUBLE (F32.to_double (F32.of_int 0))) /\
  data_get "datetime_maybe" (data b) = Some (DATA_STRING "2741T7:49:35") /\
  data_get "mic" (data b) = Some (DATA_STRING "CHECKSUM") /\
  checksum b = 0xc7 /\ b.[13] = 0xc7.
Proof.
  vm_compute. repeat split; reflexivity.
Qed.

(** ** Rows of the wrong length *)

(** C7, as stated, fails: a transmission of a single 119-bit row is turned
    down by the consensus matcher, with [DECODE_ABORT_EARLY], before its
    length is looked at. *)
Lemma lone_short_row_aborts_early :
  let t := [mk_row 119 [x55; x5a; x7c; x00; x6a; xa5; x60; xe7; x3f; x36;
                        xda; xff; x5d; x38; xfe]] in
  bits_per_row t 0 = 119%nat /\
  fst (decode t) = Abort DECODE_ABORT_EARLY /\
  fst (decode t) <> Abort DECODE_ABORT_LENGTH.
Proof.
  vm_compute. repeat split; try reflexivity. discriminate.
Qed.

(** C7, amended: a transmission none of whose rows has exactly 120 bits
    (119 and 121 included) yields no reading, and none of its rows reaches
    the inversion, the checksum or the extraction: the buffer is left as it
    was.  The failure is the length mismatch whenever the consensus matcher
    has selected a row, and the consensus failure otherwise. *)
Theorem wrong_length_rejected (bitbuffer : bitbuffer_t) :
  (forall r, (r < List.length bitbuffer)%nat -> bits_per_row bitbuffer r <> 120%nat) ->
  let res := fst (decode bitbuffer) in
  let w := snd (decode bitbuffer) in
  outputs (calls w) = [] /\
  inversions (calls w) = 0%nat /\
  buffer w = bitbuffer /\
  (0 <= bitbuffer_find_repeated_row bitbuffer 3 112 -> res = Abort DECODE_ABORT_LENGTH) /\
  (bitbuffer_find_repeated_row bitbuffer 3 112 < 0 -> res = Abort DECODE_ABORT_EARLY).
Proof.
  intros Hlen res w. subst res w.
  assert (Hbad : forall r, bitbuffer_find_repeated_row bitbuffer 3 112 = Z.of_nat r ->
                           bits_per_row bitbuffer r <> 120%nat).
  { intros r Hr. apply Hlen.
    destruct (find_repeated_row_cases bitbuffer 3 112)
      as [(r' & Hr' & Hlt & _)|[Hnone _]].
    - assert (r' = r) by (apply Nat2Z.inj; congruence). now subst.
    - rewrite Hr in Hnone. lia. }
  pose proof (decode_takes_path bitbuffer) as P.
  destruct (decode bitbuffer) as [res w]. cbn [fst snd] in *.
  inversion P as [Hf|r Hf Hl|r Hf Hl Hm|r Hf Hl Hm Hc|r Hf Hl Hm Hc];
    subst; cbn [calls buffer];
    try (exfalso; apply (Hbad r Hf); assumption).
  - repeat split; try reflexivity. rewrite Hf. lia.
  - repeat split; try reflexivity. rewrite Hf. lia.
Qed.

Lemma wrong_length_rejected_witness :
  let t := map (fun rr =>
                  mk_row 121 [x55; x5a; x7c; x00; x6a; xa5; x60; xe7; x3f; x36;
                              xda; xff; x5d; x38; rr; x00])
               [xff; xfe; xfd] in
  outputs (calls (snd (decode t))) = [] /\
  inversions (calls (snd (decode t))) = 0%nat /\
  buffer (snd (decode t)) = t /\
  (0 <= bitbuffer_find_repeated_row t 3 112 -> fst (decode t) = Abort DECODE_ABORT_LENGTH) /\
  (bitbuffer_find_repeated_row t 3 112 < 0 -> fst (decode t) = Abort DECODE_ABORT_EARLY).
Proof.
  intros t. apply (wrong_length_rejected t).
  intros r Hr. simpl in Hr.
  do 3 (destruct r as [|r]; [vm_compute; discriminate|]). lia.
Defined.

(** ** Inversion of the whole buffer *)

(** C9: once the representative row has passed the length and signature
    checks, the buffer the call leaves behind is the caller's buffer with
    every bit of every row inverted, not only the representative row; the
    number of rows and their bit counts are as before.  When the checksum
    then fails, the call returns [DECODE_FAIL_MIC] without a reading, and
    the buffer is nevertheless no longer what the caller passed in. *)
Theorem inversion_whole_buffer (bitbuffer : bitbuffer_t) (r : nat) :
  validated bitbuffer r ->
  let w := snd (decode bitbuffer) in
  let b := bb (buffer w) r in
  List.length (buffer w) = List.length bitbuffer /\
  (forall k, bits_per_row (buffer w) k = bits_per_row bitbuffer k) /\
  (forall k i, (i < bits_per_row bitbuffer k)%nat ->
     row_bit (nth k (buffer w) empty_row) i = negb (row_bit (nth k bitbuffer empty_row) i)) /\
  (checksum b <> b.[13] ->
     fst (decode bitbuffer) = Abort DECODE_FAIL_MIC /\
     outputs (calls (snd (decode bitbuffer))) = [] /\
     buffer w <> bitbuffer).
Proof.
  intros (Hr & Hlen & Hm) w b. subst b w.
  assert (Hbits : forall k i, (i < bits_per_row bitbuffer k)%nat ->
     row_bit (nth k (bitbuffer_invert bitbuffer) empty_row) i
     = negb (row_bit (nth k bitbuffer empty_row) i)).
  { intros k i Hi. unfold bitbuffer_invert.
    change empty_row with (invert_row empty_row) at 1.
    rewrite map_nth, row_bit_invert.
    unfold bits_per_row in Hi.
    now replace (i <? row_bits (nth k bitbuffer empty_row))%nat with true
      by (symmetry; apply Nat.ltb_lt; exact Hi). }
  assert (Hne : bitbuffer_invert bitbuffer <> bitbuffer).
  { intros Heq. specialize (Hbits r 0%nat). rewrite Heq, Hlen in Hbits.
    specialize (Hbits ltac:(lia)).
    destruct (row_bit (nth r bitbuffer empty_row) 0); discriminate. }
  pose proof (decode_takes_path bitbuffer) as P.
  destruct (decode bitbuffer) as [res w]. cbn [fst snd] in *.
  inversion P; subst; cbn [calls buffer]; try same_row; try contradiction.
  - split; [apply length_map|].
    split; [intros k; apply bits_per_row_invert|].
    split; [exact Hbits|].
    intros _. repeat split; auto.
  - split; [apply length_map|].
    split; [intros k; apply bits_per_row_invert|].
    split; [exact Hbits|].
    rewrite <- add_bytes_low8. intros Hc. contradiction.
Qed.

Lemma inversion_whole_buffer_witness :
  let t := map (fun rr =>
                  mk_row 120 [x55; x5a; x7c; x00; x6a; xa5; x60; xe7; x3f; x36;
                              xda; xff; x5d; x39; rr])
               [xff; xfe; xfd] in
  fst (decode t) = Abort DECODE_FAIL_MIC /\
  outputs (calls (snd (decode t))) = [] /\
  buffer (snd (decode t)) <> t.
Proof.
  intros t.
  destruct (inversion_whole_buffer t 0) as (_ & _ & _ & H).
  - repeat split; reflexivity.
  - apply H. vm_compute. discriminate.
Defined.

(** ** The floating-point fields *)

Lemma forall_range (P : Z -> bool) (lo : Z) (n : nat) :
  forallb P (map (fun k => lo + Z.of_nat k) (seq 0 n)) = true ->
  forall z, lo <= z < lo + Z.of_nat n -> P z = true.
Proof.
  intros H z Hz. rewrite forallb_forall in H. apply H.
  apply in_map_iff. exists (Z.to_nat (z - lo)).
  split; [lia|apply in_seq; lia].
Qed.

Lemma temp_c_close (t : Z) : -2048 <= t < 2048 -> temp_close t = true.
Proof.
  apply (forall_range temp_close (-2048) 4096). vm_compute. reflexivity.
Qed.

Lemma speed_ms_exact (x : Z) : 0 <= x < 256 -> speed_exact x = true.
Proof.
  apply (forall_range speed_exact 0 256). vm_compute. reflexivity.
Qed.

Lemma dir_deg_exact (n : Z) : 0 <= n < 16 -> dir_exact n = true.
Proof.
  apply (forall_range dir_exact 0 16). vm_compute. reflexivity.
Qed.

(** The temperature of a reading: the signed raw value times 0.1f, which is
    a tenth of the raw value up to the rounding of binary32. *)
Lemma temperature_value (b : list byte) :
  exists q,
    F32.to_Q (F32.to_double (temp_c b)) = Some q /\
    (Qabs (q - Layout.temperature b) <= 1 # 100000)%Q.
Proof.
  pose proof (temp_c_close _ (temperature_raw_range b)) as H.
  unfold temp_close in H. unfold temp_c. rewrite temp_raw_shifted.
  destruct (F32.to_Q _) as [q|]; [|discriminate].
  exists q. split; [reflexivity|]. now apply Qle_bool_iff.
Qed.

Lemma speed_value (b : list byte) :
  exists q,
    F32.to_Q (F32.to_double (speed_ms b)) = Some q /\
    (q == inject_Z (Layout.wind_speed b))%Q.
Proof.
  pose proof (speed_ms_exact _ (idx_range b 11)) as H.
  unfold speed_exact in H. unfold speed_ms, Layout.wind_speed.
  destruct (F32.to_Q _) as [q|]; [|discriminate].
  exists q. split; [reflexivity|]. now apply Qeq_bool_iff.
Qed.

Lemma wind_direction_range (b : list byte) : 0 <= Layout.wind_direction b < 16.
Proof.
  unfold Layout.wind_direction. pose proof (idx_range b 12).
  split; [apply Z.div_pos; lia|apply Z.div_lt_upper_bound; lia].
Qed.

Lemma direction_value (b : list byte) :
  exists q,
    F32.to_Q (F32.to_double (dir_deg b)) = Some q /\
    (q == Layout.wind_direction_deg b)%Q.
Proof.
  pose proof (dir_deg_exact _ (wind_direction_range b)) as H.
  unfold dir_exact in H. unfold dir_deg. rewrite dir_raw_layout.
  destruct (F32.to_Q _) as [q|]; [|discriminate].
  exists q. split; [reflexivity|]. now apply Qeq_bool_iff.
Qed.

(** C4: the 12-bit temperature field, the low nibble of byte 8 followed by
    byte 9 of the inverted frame, is read as a two's-complement number: the
    [int16_t] holds it in its high 12 bits (16 times the signed value), the
    arithmetic shift right by 4 gives the signed value, and the reading
    carries that value times 0.1f, a tenth of it up to the rounding of
    binary32.  The field 0xF83, whose two's-complement value is -125, comes
    out as the temperature -12.5, not as 397.1. *)
Theorem temperature_sign_extended (b : list byte) :
  let u := Layout.temperature_field b in
  let t := Layout.twos_complement 12 u in
  temp_raw b = 16 * t /\
  Z.shiftr (temp_raw b) 4 = t /\
  (exists d q,
      data_get "temperature_C" (data b) = Some (DATA_DOUBLE d) /\
      d = F32.to_double (F32.mul (F32.of_int t) F32.lit_0_1) /\
      F32.to_Q d = Some q /\
      (Qabs (q - (t # 10)) <= 1 # 100000)%Q) /\
  (t = -125 ->
   u = 3971 /\
   exists d,
     data_get "temperature_C" (data b) = Some (DATA_DOUBLE d) /\
     option_map Qred (F32.to_Q d) = Some (-25 # 2)%Q).
Proof.
  intros u t.
  pose proof (temp_raw_placed b) as Hp. pose proof (temp_raw_shifted b) as Hs.
  pose proof (temperature_field_range b) as Hu.
  fold u in Hu. unfold Layout.temperature_raw in Hp, Hs. fold u t in Hp, Hs.
  assert (Hd : data_get "temperature_C" (data b) =
               Some (DATA_DOUBLE (F32.to_double (F32.mul (F32.of_int t) F32.lit_0_1)))).
  { change (data_get "temperature_C" (data b))
      with (Some (DATA_DOUBLE (F32.to_double (temp_c b)))).
    unfold temp_c. now rewrite Hs. }
  split; [exact Hp|]. split; [exact Hs|]. split.
  - destruct (temperature_value b) as (q & Hq & Hclose).
    unfold temp_c in Hq. rewrite Hs in Hq.
    exists (F32.to_double (F32.mul (F32.of_int t) F32.lit_0_1)), q.
    repeat split; assumption.
  - intros Hneg. split.
    + unfold t, Layout.twos_complement in Hneg.
      change (2 ^ (12 - 1)) with 2048 in Hneg. change (2 ^ 12) with 4096 in Hneg.
      destruct (Z.ltb_spec u 2048); lia.
    + rewrite Hneg in Hd. eexists. split; [exact Hd|].
      vm_compute. reflexivity.
Qed.

Lemma temperature_sign_extended_witness :
  let b := [x00; x00; x00; x00; x00; x00; x00; x00; x0f; x83] in
  Layout.temperature_field b = 3971 /\
  exists d,
    data_get "temperature_C" (data b) = Some (DATA_DOUBLE d) /\
    option_map Qred (F32.to_Q d) = Some (-25 # 2)%Q.
Proof.
  intros b.
  destruct (temperature_sign_extended b) as (_ & _ & _ & H).
  apply H. reflexivity.
Defined.

(** *** The date and time text *)

Lemma string_length_app (s1 s2 : string) :
  String.length (s1 ++ s2) = (String.length s1 + String.length s2)%nat.
Proof. induction s1 as [|c s1 IH]; simpl; congruence. Qed.

Lemma fmt_d_width4 (z : Z) :
  0 <= z < 8192 -> (String.length (fmt_d z) <= 4)%nat.
Proof.
  intros Hz. apply Nat.leb_le.
  apply (forall_range (fun z => (String.length (fmt_d z) <=? 4)%nat) 0 (Z.to_nat 8192));
    [vm_compute; reflexivity|rewrite Z2Nat.id; lia].
Qed.

Lemma fmt_d_width2 (z : Z) :
  0 <= z < 64 -> (String.length (fmt_d z) <= 2)%nat.
Proof.
  intros Hz. apply Nat.leb_le.
  apply (forall_range (fun z => (String.length (fmt_d z) <=? 2)%nat) 0 64);
    [vm_compute; reflexivity|lia].
Qed.

Lemma land_ones_range (x k : Z) : 0 <= k -> 0 <= Z.land x (Z.ones k) < 2 ^ k.
Proof.
  intros Hk. rewrite Z.land_ones by assumption.
  apply Z.mod_pos_bound. now apply Z.pow_pos_nonneg.
Qed.

(** The text written by [sprintf] fits the 14 bytes of [dcf77_str],
    terminator included. *)
Lemma dcf77_str_fits (b : list byte) : (String.length (dcf77_str b) <= 13)%nat.
Proof.
  pose proof (dcf77_raw_range b) as Hraw.
  assert (Hd : 0 <= dcf77_days b < 8192).
  { unfold dcf77_days. rewrite Z.shiftr_div_pow2 by lia.
    split; [apply Z.div_pos; lia|].
    apply Z.div_lt_upper_bound; [lia|].
    change (2 ^ 17 * 8192) with (2 ^ 30). lia. }
  assert (Hh : 0 <= dcf77_hour b < 64).
  { unfold dcf77_hour. pose proof (land_ones_range (Z.shiftr (dcf77_raw b) 12) 5 ltac:(lia)) as H.
    change (Z.ones 5) with 31 in H. change (2 ^ 5) with 32 in H. lia. }
  assert (Hm : 0 <= dcf77_min b < 64).
  { unfold dcf77_min. pose proof (land_ones_range (Z.shiftr (dcf77_raw b) 6) 6 ltac:(lia)) as H.
    change (Z.ones 6) with 63 in H. change (2 ^ 6) with 64 in H. lia. }
  assert (Hs : 0 <= dcf77_sec b < 64).
  { unfold dcf77_sec. pose proof (land_ones_range (Z.shiftr (dcf77_raw b) 0) 6 ltac:(lia)) as H.
    change (Z.ones 6) with 63 in H. change (2 ^ 6) with 64 in H. lia. }
  unfold dcf77_str. rewrite !string_length_app.
  pose proof (fmt_d_width4 _ Hd). pose proof (fmt_d_width2 _ Hh).
  pose proof (fmt_d_width2 _ Hm). pose proof (fmt_d_width2 _ Hs).
  change (String.length "T") with 1%nat.
  change (String.length ":") with 1%nat.
  lia.
Qed.

(** ** What the decoder reads of a row *)

(** The checksum and the reading depend on the first 14 bytes only. *)
Lemma checksum_ext (b1 b2 : list byte) :
  (forall i, (i < 14)%nat -> b1.[i] = b2.[i]) -> checksum b1 = checksum b2.
Proof.
  intros H. unfold checksum.
  rewrite (H 0%nat), (H 1%nat), (H 2%nat), (H 3%nat), (H 4%nat), (H 5%nat),
    (H 6%nat), (H 7%nat), (H 8%nat), (H 9%nat), (H 10%nat), (H 11%nat),
    (H 12%nat) by lia.
  reflexivity.
Qed.

Lemma data_ext (b1 b2 : list byte) :
  (forall i, (i < 14)%nat -> b1.[i] = b2.[i]) -> data b1 = data b2.
Proof.
  intros H.
  unfold data, dcf77_str, dcf77_days, dcf77_hour, dcf77_min, dcf77_sec,
    dcf77_raw, battery_ok, battery, id, channel, temp_c, temp_raw, humidity,
    speed_ms, dir_deg, dir_raw.
  rewrite (H 3%nat), (H 4%nat), (H 5%nat), (H 6%nat), (H 7%nat), (H 8%nat),
    (H 9%nat), (H 10%nat), (H 11%nat), (H 12%nat) by lia.
  reflexivity.
Qed.

Lemma model_ok_ext (b1 b2 : list byte) :
  (forall i, (i < 14)%nat -> b1.[i] = b2.[i]) -> model_ok b1 -> model_ok b2.
Proof.
  intros H (H0 & H1 & H2). unfold model_ok.
  rewrite <- (H 0%nat), <- (H 1%nat), <- (H 2%nat) by lia. auto.
Qed.

(** ** Equal transmissions *)

Lemma row_equal_refl (a : bitrow_t) : row_equal a a.
Proof. split; auto. Qed.

Lemma row_equal_sym (a b : bitrow_t) : row_equal a b -> row_equal b a.
Proof.
  intros [Hn H]. split; [auto|].
  intros i Hi. symmetry. apply H. now rewrite Hn.
Qed.

Lemma same_transmission_refl (t : bitbuffer_t) : same_transmission t t.
Proof. induction t; constructor; auto using row_equal_refl. Qed.

Lemma same_transmission_length (t1 t2 : bitbuffer_t) :
  same_transmission t1 t2 -> List.length t1 = List.length t2.
Proof. induction 1; simpl; congruence. Qed.

Lemma same_transmission_nth (t1 t2 : bitbuffer_t) :
  same_transmission t1 t2 ->
  forall r, row_equal (nth r t1 empty_row) (nth r t2 empty_row).
Proof.
  induction 1 as [|a b t1 t2 Hab _ IH]; intros r.
  - destruct r; apply row_equal_refl.
  - destruct r as [|r]; simpl; [assumption|apply IH].
Qed.

Lemma same_transmission_invert (t1 t2 : bitbuffer_t) :
  same_transmission t1 t2 ->
  same_transmission (bitbuffer_invert t1) (bitbuffer_invert t2).
Proof.
  induction 1 as [|a b t1 t2 [Hn Hab] _ IH]; simpl; constructor; [|assumption].
  split; [exact Hn|].
  cbn [invert_row row_bits]. intros i Hi.
  rewrite !row_bit_invert, <- Hn.
  replace (i <? row_bits a)%nat with true by (symmetry; now apply Nat.ltb_lt).
  f_equal. now apply Hab.
Qed.

Lemma bit_identical_equal (n : nat) (a a' b b' : bitrow_t) :
  row_equal a a' -> row_equal b b' ->
  bit_identical n a b -> bit_identical n a' b'.
Proof.
  intros [Ha Haa] [Hb Hbb] (Hna & Hnb & H).
  repeat split; try lia.
  intros i Hi. rewrite <- Haa, <- Hbb by lia. now apply H.
Qed.

Lemma rows_agree_equal (n : nat) (a a' b b' : bitrow_t) :
  row_equal a a' -> row_equal b b' ->
  rows_agree n a b = rows_agree n a' b'.
Proof.
  intros Ha Hb.
  destruct (rows_agree n a b) eqn:E1, (rows_agree n a' b') eqn:E2;
    try reflexivity.
  - apply rows_agree_iff in E1.
    apply (bit_identical_equal n _ _ _ _ Ha Hb), rows_agree_iff in E1.
    congruence.
  - apply rows_agree_iff in E2.
    apply (bit_identical_equal n _ _ _ _ (row_equal_sym _ _ Ha) (row_equal_sym _ _ Hb)),
      rows_agree_iff in E2.
    congruence.
Qed.

Lemma count_repeats_equal (t1 t2 : bitbuffer_t) (r n : nat) :
  same_transmission t1 t2 -> count_repeats t1 r n = count_repeats t2 r n.
Proof.
  intros H. rewrite !count_repeats_indices. unfold repeats_of.
  rewrite <- (same_transmission_length _ _ H).
  f_equal. apply filter_ext. intros i.
  apply rows_agree_equal; now apply same_transmission_nth.
Qed.

Lemma find_ext {A} (p q : A -> bool) (l : list A) :
  (forall x, p x = q x) -> find p l = find q l.
Proof.
  intros H. induction l as [|x l IH]; simpl; [reflexivity|].
  rewrite H, IH. reflexivity.
Qed.

Lemma find_repeated_row_equal (t1 t2 : bitbuffer_t) (k n : nat) :
  same_transmission t1 t2 ->
  bitbuffer_find_repeated_row t1 k n = bitbuffer_find_repeated_row t2 k n.
Proof.
  intros H. unfold bitbuffer_find_repeated_row.
  rewrite <- (same_transmission_length _ _ H).
  rewrite (find_ext _ (fun i => (k <=? count_repeats t2 i n)%nat)).
  - reflexivity.
  - intros i. now rewrite (count_repeats_equal _ _ i n H).
Qed.

(** The bits of a whole byte of a row are the bits of the byte's value. *)
Lemma row_bit_of_byte (row : bitrow_t) (j q : nat) :
  (q < 8)%nat ->
  row_bit row (8 * j + q) = Z.testbit (row_bytes row).[j] (Z.of_nat (7 - q)).
Proof.
  intros Hq. unfold row_bit.
  replace ((8 * j + q) / 8)%nat with j.
  - replace ((8 * j + q) mod 8)%nat with q; [reflexivity|].
    rewrite Nat.add_comm, Nat.mul_comm, Nat.Div0.mod_add.
    symmetry. now apply Nat.mod_small.
  - rewrite Nat.add_comm, Nat.mul_comm, Nat.div_add by lia.
    rewrite Nat.div_small by assumption. reflexivity.
Qed.

Lemma row_equal_bytes (a b : bitrow_t) (j : nat) :
  row_equal a b -> (8 * j + 8 <= row_bits a)%nat ->
  (row_bytes a).[j] = (row_bytes b).[j].
Proof.
  intros [Hn H] Hj.
  apply byte_bits_inj; try apply idx_range.
  intros p Hp.
  replace p with (Z.of_nat (7 - (7 - Z.to_nat p))) by lia.
  rewrite <- !row_bit_of_byte by lia.
  apply H. lia.
Qed.

Lemma same_transmission_bytes (t1 t2 : bitbuffer_t) (r : nat) :
  same_transmission t1 t2 -> bits_per_row t1 r = 120%nat ->
  forall i, (i < 14)%nat -> (bb t1 r).[i] = (bb t2 r).[i].
Proof.
  intros H Hlen i Hi. unfold bb.
  apply row_equal_bytes; [now apply same_transmission_nth|].
  unfold bits_per_row in Hlen. lia.
Qed.

Lemma same_transmission_bits (t1 t2 : bitbuffer_t) (r : nat) :
  same_transmission t1 t2 -> bits_per_row t1 r = bits_per_row t2 r.
Proof.
  intros H. now destruct (same_transmission_nth _ _ H r).
Qed.

(** *** The path of a call is determined by the transmission *)

Lemma decode_path_functional (t : bitbuffer_t) (res res' : retval) (w w' : world) :
  decode_path t res w -> decode_path t res' w' -> res = res' /\ w = w'.
Proof.
  intros P P'.
  inversion P; subst; inversion P'; subst;
    try same_row; try contradiction; try congruence; auto.
Qed.

(** A path of [t1] is, on an equal transmission [t2], the path with the
    same result and the same calls. *)
Lemma decode_path_equal (t1 t2 : bitbuffer_t) (res : retval) (w : world) :
  same_transmission t1 t2 -> decode_path t1 res w ->
  exists b2, same_transmission (buffer w) b2 /\
             decode_path t2 res (mk_world b2 (calls w)).
Proof.
  intros H P.
  pose proof (find_repeated_row_equal t1 t2 3 112 H) as Hfind.
  pose proof (same_transmission_invert _ _ H) as Hinv.
  inversion P as [Hf|r Hf Hl|r Hf Hl Hm|r Hf Hl Hm Hc|r Hf Hl Hm Hc];
    subst; cbn [buffer calls].
  - exists t2. split; [assumption|]. apply path_no_repeat. congruence.
  - exists t2. split; [assumption|]. apply path_length; [congruence|].
    now rewrite <- (same_transmission_bits _ _ r H).
  - exists t2. split; [assumption|]. apply path_model; [congruence| |].
    + now rewrite <- (same_transmission_bits _ _ r H).
    + intros Hm2. apply Hm. apply (model_ok_ext (bb t2 r)); [|assumption].
      intros i Hi. symmetry. now apply same_transmission_bytes.
  - pose proof (same_transmission_bytes _ _ r H Hl) as Hb.
    assert (Hb' : forall i, (i < 14)%nat ->
              (bb (bitbuffer_invert t1) r).[i] = (bb (bitbuffer_invert t2) r).[i]).
    { apply same_transmission_bytes; [assumption|].
      now rewrite bits_per_row_invert. }
    exists (bitbuffer_invert t2). split; [assumption|].
    apply path_checksum; [congruence| | |].
    + now rewrite <- (same_transmission_bits _ _ r H).
    + now apply (model_ok_ext (bb t1 r)).
    + rewrite add_bytes_low8 in *.
      rewrite <- (checksum_ext _ _ Hb'), <- (Hb' 13%nat) by lia. assumption.
  - pose proof (same_transmission_bytes _ _ r H Hl) as Hb.
    assert (Hb' : forall i, (i < 14)%nat ->
              (bb (bitbuffer_invert t1) r).[i] = (bb (bitbuffer_invert t2) r).[i]).
    { apply same_transmission_bytes; [assumption|].
      now rewrite bits_per_row_invert. }
    exists (bitbuffer_invert t2). split; [assumption|].
    rewrite (data_ext _ _ Hb').
    apply path_output; [congruence| | |].
    + now rewrite <- (same_transmission_bits _ _ r H).
    + now apply (model_ok_ext (bb t1 r)).
    + rewrite add_bytes_low8 in *.
      rewrite <- (checksum_ext _ _ Hb'), <- (Hb' 13%nat) by lia. assumption.
Qed.

(** C8: decoding is deterministic.  Two calls on equal transmissions, rows
    with equal bit counts and equal bits, return the same value and make the
    same calls with the same arguments: either both put out no reading, or
    both put out the same one; and the buffers they leave behind are equal
    transmissions again. *)
Theorem decode_deterministic (t1 t2 : bitbuffer_t) :
  same_transmission t1 t2 ->
  fst (decode t1) = fst (decode t2) /\
  calls (snd (decode t1)) = calls (snd (decode t2)) /\
  outputs (calls (snd (decode t1))) = outputs (calls (snd (decode t2))) /\
  same_transmission (buffer (snd (decode t1))) (buffer (snd (decode t2))).
Proof.
  intros H.
  destruct (decode_path_equal t1 t2 _ _ H (decode_takes_path t1))
    as (b2 & Hb2 & P2).
  destruct (decode_path_functional t2 _ _ _ _ P2 (decode_takes_path t2))
    as [Hres Hw].
  rewrite <- Hres, <- Hw. cbn [calls buffer]. auto.
Qed.

Lemma row_equalb_sound (a b : bitrow_t) : row_equalb a b = true -> row_equal a b.
Proof.
  unfold row_equalb, row_equal.
  rewrite andb_true_iff, Nat.eqb_eq, forallb_forall.
  intros [Hn H]. split; [assumption|].
  intros i Hi. apply eqb_prop, H, in_seq. lia.
Qed.

Lemma decode_deterministic_witness :
  let t1 := raw_data in
  let t2 := map (fun row => mk_row (row_bits row) (row_bytes row ++ [x42; x00])) raw_data in
  fst (decode t1) = fst (decode t2) /\
  calls (snd (decode t1)) = calls (snd (decode t2)) /\
  outputs (calls (snd (decode t1))) = outputs (calls (snd (decode t2))) /\
  same_transmission (buffer (snd (decode t1))) (buffer (snd (decode t2))).
Proof.
  intros t1 t2. apply (decode_deterministic t1 t2).
  repeat constructor; apply row_equalb_sound; vm_compute; reflexivity.
Defined.

(** ** Round trip *)

(** The reading built from a row buffer has the layout's values. *)
Lemma data_matches_layout (b : list byte) : reading_matches_layout b (data b).
Proof.
  unfold reading_matches_layout.
  split; [reflexivity|].
  split; [change (data_get "battery_ok" (data b)) with (Some (DATA_INT (battery_ok b)));
          now rewrite battery_ok_layout|].
  split; [change (data_get "datetime_raw" (data b)) with (Some (DATA_INT (dcf77_raw b)));
          now rewrite dcf77_raw_layout|].
  split; [change (data_get "channel" (data b)) with (Some (DATA_INT (channel b)));
          now rewrite channel_layout|].
  split.
  { destruct (temperature_value b) as (q & Hq & Hclose).
    exists (F32.to_double (temp_c b)), q.
    split; [reflexivity|].
    split; [unfold temp_c; now rewrite temp_raw_shifted|].
    split; assumption. }
  split; [reflexivity|].
  split.
  { destruct (speed_value b) as (q & Hq & Hv).
    exists (F32.to_double (speed_ms b)), q. repeat split; assumption. }
  destruct (direction_value b) as (q & Hq & Hv).
  exists (F32.to_double (dir_deg b)), q. repeat split; assumption.
Qed.

Lemma wire_frame_idx (f : list byte) (i : nat) :
  (i < List.length f)%nat -> (wire_frame f).[i] = 255 - f.[i].
Proof.
  intros Hi. unfold idx, wire_frame.
  rewrite (nth_indep _ x00 (invert_byte 8 x00)) by now rewrite length_map.
  rewrite map_nth. apply invert_byte_full. lia.
Qed.

Lemma wire_row_idx (f : list byte) (rr : byte) (i : nat) :
  (i < List.length f)%nat -> (wire_frame f ++ [rr]).[i] = 255 - f.[i].
Proof.
  intros Hi. rewrite idx_app_l by (unfold wire_frame; now rewrite length_map).
  now apply wire_frame_idx.
Qed.

(** The rows of a transmission differ in their repeat counter only. *)
Lemma wire_rows_agree (f : list byte) (rr rr' : byte) :
  List.length f = 14%nat ->
  rows_agree 112 (mk_row 120 (wire_frame f ++ [rr]))
                 (mk_row 120 (wire_frame f ++ [rr'])) = true.
Proof.
  intros Hf. apply rows_agree_iff.
  split; [simpl; lia|]. split; [simpl; lia|].
  intros i Hi. unfold row_bit. cbn [row_bytes].
  assert (Hj : (i / 8 < 14)%nat) by (apply Nat.Div0.div_lt_upper_bound; lia).
  rewrite !idx_app_l by (unfold wire_frame; rewrite length_map; lia).
  reflexivity.
Qed.

Lemma filter_all {A} (p : A -> bool) (l : list A) :
  (forall x, In x l -> p x = true) -> filter p l = l.
Proof.
  induction l as [|x l IH]; intros H; simpl; [reflexivity|].
  rewrite (H x) by now left.
  f_equal. apply IH. intros y Hy. apply H. now right.
Qed.

Lemma transmit_find (f repeat : list byte) :
  List.length f = 14%nat -> (3 <= List.length repeat)%nat ->
  bitbuffer_find_repeated_row (transmit f repeat) 3 112 = 0.
Proof.
  intros Hf Hn.
  destruct repeat as [|rr0 repeat]; [simpl in Hn; lia|].
  assert (Hc : count_repeats (transmit f (rr0 :: repeat)) 0 112
               = List.length (rr0 :: repeat)).
  { unfold count_repeats. rewrite filter_all.
    - unfold transmit. apply length_map.
    - intros x Hx. apply in_map_iff in Hx. destruct Hx as (rr & <- & _).
      cbn [transmit map nth]. now apply wire_rows_agree. }
  unfold bitbuffer_find_repeated_row.
  replace (List.length (transmit f (rr0 :: repeat)))
    with (S (List.length repeat)) by (unfold transmit; now rewrite length_map).
  cbn [seq find]. rewrite Hc.
  replace (3 <=? List.length (rr0 :: repeat))%nat with true
    by (symmetry; now apply Nat.leb_le).
  reflexivity.
Qed.

(** A validated row whose inverted bytes carry a good checksum is decoded. *)
Lemma decode_output (t : bitbuffer_t) (r : nat) :
  validated t r ->
  checksum (bb (bitbuffer_invert t) r) = (bb (bitbuffer_invert t) r).[13] ->
  fst (decode t) = Events 1 /\
  outputs (calls (snd (decode t))) = [data (bb (bitbuffer_invert t) r)].
Proof.
  intros (Hr & Hlen & Hm) Hc. rewrite <- add_bytes_low8 in Hc.
  decode_paths t. split; reflexivity.
Qed.

(** C6, as stated, fails: a frame that itself starts with the magic bytes
    55 5A 7C and carries a good checksum goes on the air as AA A5 83 ...,
    which the signature check, made on the bytes as received, turns down. *)
Lemma magic_frame_not_decoded :
  let f := [x55; x5a; x7c; x00; x00; x00; x00; x00; x00; x00; x00; x00; x00; x2b] in
  List.length f = 14%nat /\
  f.[0] = 0x55 /\ f.[1] = 0x5a /\ f.[2] = 0x7c /\
  f.[13] = checksum f /\
  fst (decode (transmit f [x01; x02; x03])) = Abort DECODE_ABORT_EARLY /\
  outputs (calls (snd (decode (transmit f [x01; x02; x03])))) = [].
Proof.
  vm_compute. repeat split; reflexivity.
Qed.

(** C6, amended: take a 14-byte frame whose first three bytes are AA A5 83,
    the complement of the magic bytes, and whose byte 13 is the sum modulo
    256 of its first 13 bytes.  Inverting every bit of it and sending it as
    three or more 120-bit rows, each closed by a repeat counter, gives a
    transmission that decodes to exactly one reading, and that reading has
    the values the field layout defines on the frame: id, battery, raw date
    and time, channel, humidity, wind speed and wind direction exactly, and
    the temperature as the signed raw value times 0.1 in binary32. *)
Theorem round_trip (f repeat : list byte) :
  List.length f = 14%nat ->
  f.[0] = 0xaa -> f.[1] = 0xa5 -> f.[2] = 0x83 ->
  f.[13] = checksum f ->
  (3 <= List.length repeat)%nat ->
  exists d,
    fst (decode (transmit f repeat)) = Events 1 /\
    outputs (calls (snd (decode (transmit f repeat)))) = [d] /\
    reading_matches_layout f d.
Proof.
  intros Hf H0 H1 H2 Hck Hn.
  pose proof (transmit_find f repeat Hf Hn) as Hfind.
  destruct repeat as [|rr0 rest]; [simpl in Hn; lia|].
  set (t := transmit f (rr0 :: rest)) in *.
  assert (Hrow : bb t 0 = wire_frame f ++ [rr0]) by reflexivity.
  assert (Hlen : bits_per_row t 0 = 120%nat) by reflexivity.
  assert (Hv : validated t 0).
  { split; [exact Hfind|]. split; [exact Hlen|].
    unfold model_ok. rewrite Hrow, !wire_row_idx by lia.
    rewrite H0, H1, H2. repeat split; reflexivity. }
  assert (Hb : forall i, (i < 14)%nat -> (bb (bitbuffer_invert t) 0).[i] = f.[i]).
  { intros i Hi. rewrite frame_inverted by (assumption || lia).
    rewrite Hrow, wire_row_idx by lia. lia. }
  destruct (decode_output t 0 Hv) as [Hres Hout].
  { rewrite (checksum_ext _ _ Hb), (Hb 13%nat) by lia. now symmetry. }
  exists (data f). rewrite <- (data_ext _ _ Hb).
  split; [assumption|]. split; [assumption|].
  rewrite (data_ext _ _ Hb). apply data_matches_layout.
Qed.

Lemma round_trip_witness :
  let f := [xaa; xa5; x83; xff; x95; x5a; x9f; x18; xc0; xc9; x25; x00; xa2; xc7] in
  exists d,
    fst (decode (transmit f [xff; xfe; xfd])) = Events 1 /\
    outputs (calls (snd (decode (transmit f [xff; xfe; xfd])))) = [d] /\
    reading_matches_layout f d.
Proof.
  intros f. apply (round_trip f [xff; xfe; xfd]).
  - reflexivity.
  - reflexivity.
  - reflexivity.
  - reflexivity.
  - reflexivity.
  - simpl. lia.
Defined.

(** * Further properties of the decoder *)

(** ** Results and records *)

Lemma decode_of_path (t : bitbuffer_t) (res : retval) (w : world) :
  decode_path t res w -> decode t = (res, w).
Proof.
  intros P.
  destruct (decode_path_functional t _ _ _ _ P (decode_takes_path t)) as [Hr Hw].
  rewrite (surjective_pairing (decode t)). now rewrite <- Hr, <- Hw.
Qed.

(** A record that is put out was built from the inverted bytes of a
    validated row with a good checksum. *)
Lemma output_origin (t : bitbuffer_t) (d : data_t) :
  In d (outputs (calls (snd (decode t)))) ->
  exists r,
    validated t r /\
    checksum (bb (bitbuffer_invert t) r) = (bb (bitbuffer_invert t) r).[13] /\
    d = data (bb (bitbuffer_invert t) r) /\
    decode t =
      (Events 1,
       mk_world (bitbuffer_invert t)
         [found_log r; Call_bitbuffer_invert; Call_decoder_output_data d]).
Proof.
  intros Hd.
  pose proof (decode_takes_path t) as P.
  pose proof (decode_of_path t _ _ P) as E.
  destruct (decode t) as [res w]. cbn [fst snd] in *.
  inversion P; subst; cbn in Hd; try contradiction.
  destruct Hd as [<-|[]].
  exists r. rewrite <- add_bytes_low8.
  split; [unfold validated; auto|]. auto.
Qed.

(** X1: the value a call returns is the number of records it has put out:
    a call that returns 1 has put out exactly one record, a call that
    returns an abort code none; no call puts out more than one record or
    returns any other count. *)
Theorem return_counts_records (t : bitbuffer_t) :
  let res := fst (decode t) in
  let out := outputs (calls (snd (decode t))) in
  (res = Events (Z.of_nat (List.length out)) /\ List.length out = 1%nat)
  \/
  (exists code, res = Abort code /\ out = []).
Proof.
  intros res out. subst res out.
  pose proof (decode_takes_path t) as P.
  destruct (decode t) as [res w]. cbn [fst snd] in *.
  inversion P; subst; cbn [calls];
    try (right; eexists; split; reflexivity).
  left. split; reflexivity.
Qed.

(** X2: the keys of every record the decoder puts out are exactly the
    names the device entry declares in [fields], in the same order and
    without repetition. *)
Theorem output_keys_declared (t : bitbuffer_t) (d : data_t) :
  In d (outputs (calls (snd (decode_fn emos_e6016 (mk_world t []))))) ->
  map key d = fields emos_e6016 /\ NoDup (map key d).
Proof.
  intros Hd. change (decode_fn emos_e6016 (mk_world t [])) with (decode t) in Hd.
  destruct (output_origin t d Hd) as (r & _ & _ & -> & _).
  split; [reflexivity|].
  change (map key (data (bb (bitbuffer_invert t) r))) with output_fields.
  unfold output_fields.
  repeat (constructor; [simpl; intuition discriminate|]). constructor.
Qed.

Lemma output_keys_declared_witness :
  let d := data (bb (bitbuffer_invert raw_data) 0) in
  map key d = fields emos_e6016 /\ NoDup (map key d).
Proof.
  apply (output_keys_declared raw_data).
  vm_compute. left. reflexivity.
Defined.

(** ** Ranges of the fields *)



(** ** The date and time *)

(** X4: the four parts taken from the packed date and time split it
    without loss: seconds and minutes are 6 bits each, hours 5 bits, days
    the 13 bits above, and the raw value is put together again from them.
    The text of the record is these four numbers in decimal, as
    days "T" hours ":" minutes ":" seconds. *)
Theorem datetime_parts (b : list byte) :
  0 <= dcf77_sec b < 64 /\
  0 <= dcf77_min b < 64 /\
  0 <= dcf77_hour b < 32 /\
  0 <= dcf77_days b < 8192 /\
  dcf77_raw b =
    ((dcf77_days b * 32 + dcf77_hour b) * 64 + dcf77_min b) * 64 + dcf77_sec b /\
  data_get "datetime_raw" (data b) = Some (DATA_INT (dcf77_raw b)) /\
  data_get "datetime_maybe" (data b) =
    Some (DATA_STRING (fmt_d (dcf77_days b) ++ "T" ++ fmt_d (dcf77_hour b) ++ ":"
                         ++ fmt_d (dcf77_min b) ++ ":" ++ fmt_d (dcf77_sec b))).
Proof.
  assert (Harith :
    0 <= dcf77_sec b < 64 /\ 0 <= dcf77_min b < 64 /\
    0 <= dcf77_hour b < 32 /\ 0 <= dcf77_days b < 8192 /\
    dcf77_raw b =
      ((dcf77_days b * 32 + dcf77_hour b) * 64 + dcf77_min b) * 64 + dcf77_sec b).
  { pose proof (dcf77_raw_range b) as Hraw.
    change (2 ^ 30) with 1073741824 in Hraw.
    unfold dcf77_sec, dcf77_min, dcf77_hour, dcf77_days.
    change 63 with (Z.ones 6). change 31 with (Z.ones 5).
    rewrite !Z.land_ones, !Z.shiftr_div_pow2 by lia.
    change (2 ^ 0) with 1. change (2 ^ 5) with 32. change (2 ^ 6) with 64.
    change (2 ^ 12) with 4096. change (2 ^ 17) with 131072.
    rewrite Z.div_1_r.
    set (raw := dcf77_raw b) in *.
    repeat split; Z.div_mod_to_equations; lia. }
  destruct Harith as (Hs & Hm & Hh & Hd & Hraw).
  repeat split; try apply Hs; try apply Hm; try apply Hh; try apply Hd.
  exact Hraw.
Qed.

Lemma fmt_d_nonempty (z : Z) :
  0 <= z < 8192 -> (1 <= String.length (fmt_d z))%nat.
Proof.
  intros Hz. apply Nat.leb_le.
  apply (forall_range (fun z => (1 <=? String.length (fmt_d z))%nat) 0 (Z.to_nat 8192));
    [vm_compute; reflexivity|rewrite Z2Nat.id; lia].
Qed.

(** X5: the text that [sprintf] writes into [char dcf77_str[14]] has
    between 7 and 13 characters, whatever the frame: with its terminator
    it always fits the buffer. *)
Theorem datetime_text_fits (b : list byte) :
  (7 <= String.length (dcf77_str b))%nat /\
  (String.length (dcf77_str b) + 1 <= 14)%nat.
Proof.
  split.
  - destruct (datetime_parts b) as (Hs & Hm & Hh & Hd & _).
    unfold dcf77_str. rewrite !string_length_app.
    pose proof (fmt_d_nonempty (dcf77_days b)) as H1.
    pose proof (fmt_d_nonempty (dcf77_hour b)) as H2.
    pose proof (fmt_d_nonempty (dcf77_min b)) as H3.
    pose proof (fmt_d_nonempty (dcf77_sec b)) as H4.
    change (String.length "T") with 1%nat.
    change (String.length ":") with 1%nat.
    lia.
  - pose proof (dcf77_str_fits b). lia.
Qed.

(** ** The reading in terms of the bytes as received *)

(** The checksum test on the inverted frame, as a test on the bytes as
    received. *)
Lemma checksum_complement (w b : list byte) :
  (forall i, (i < 14)%nat -> b.[i] = 255 - w.[i]) ->
  (checksum b = b.[13] <-> w.[13] = (checksum w + 12) mod 256).
Proof.
  intros H. unfold checksum.
  rewrite (H 0%nat), (H 1%nat), (H 2%nat), (H 3%nat), (H 4%nat), (H 5%nat),
    (H 6%nat), (H 7%nat), (H 8%nat), (H 9%nat), (H 10%nat), (H 11%nat),
    (H 12%nat), (H 13%nat) by lia.
  pose proof (idx_range w 0); pose proof (idx_range w 1);
  pose proof (idx_range w 2); pose proof (idx_range w 3);
  pose proof (idx_range w 4); pose proof (idx_range w 5);
  pose proof (idx_range w 6); pose proof (idx_range w 7);
  pose proof (idx_range w 8); pose proof (idx_range w 9);
  pose proof (idx_range w 10); pose proof (idx_range w 11);
  pose proof (idx_range w 12); pose proof (idx_range w 13).
  set (S := w.[0] + w.[1] + w.[2] + w.[3] + w.[4] + w.[5] + w.[6] + w.[7]
            + w.[8] + w.[9] + w.[10] + w.[11] + w.[12]).
  replace (255 - w.[0] + (255 - w.[1]) + (255 - w.[2]) + (255 - w.[3])
           + (255 - w.[4]) + (255 - w.[5]) + (255 - w.[6]) + (255 - w.[7])
           + (255 - w.[8]) + (255 - w.[9]) + (255 - w.[10]) + (255 - w.[11])
           + (255 - w.[12])) with (3315 - S) by (unfold S; lia).
  assert (0 <= S <= 3315) by (unfold S; lia).
  clearbody S.
  split; intros E; Z.div_mod_to_equations; lia.
Qed.

(** X6: a validated row is accepted exactly when its byte 13, as received,
    is the sum of its first 13 bytes as received plus 12, modulo 256; every
    other validated row fails with [DECODE_FAIL_MIC].  The inversion turns
    the plain byte sum of the frame into this offset sum on the air. *)
Theorem checksum_on_received (t : bitbuffer_t) (r : nat) :
  validated t r ->
  let w := bb t r in
  (w.[13] = (checksum w + 12) mod 256 -> fst (decode t) = Events 1) /\
  (w.[13] <> (checksum w + 12) mod 256 -> fst (decode t) = Abort DECODE_FAIL_MIC).
Proof.
  intros (Hr & Hlen & Hm) wire.
  assert (Hinv : forall i, (i < 14)%nat ->
            (bb (bitbuffer_invert t) r).[i] = 255 - wire.[i]).
  { intros i Hi. apply frame_inverted; [assumption|lia]. }
  pose proof (checksum_complement wire _ Hinv) as Hiff.
  rewrite <- add_bytes_low8 in Hiff.
  split; intros Hw; decode_paths t.
  - exfalso. tauto.
  - exfalso. tauto.
Qed.

Lemma checksum_on_received_witness :
  let w := bb raw_data 0 in
  w.[13] = (checksum w + 12) mod 256 /\ fst (decode raw_data) = Events 1.
Proof.
  intros w. split; [reflexivity|].
  destruct (checksum_on_received raw_data 0) as [H _].
  - repeat split; reflexivity.
  - apply H. reflexivity.
Defined.

(** X7: the fields of a record, read off the bytes [w] of the selected row
    as they were received: id, humidity and wind speed are the complements
    of bytes 3, 10 and 11, battery_ok is 0 exactly when the high nibble of
    byte 4 is F, and the channel is 4 minus the two bits 5..4 of byte 8.
    The inverted frame the record is built from starts with AA A5 83. *)
Theorem reading_from_received (t : bitbuffer_t) (d : data_t) :
  In d (outputs (calls (snd (decode t)))) ->
  exists r,
    bitbuffer_find_repeated_row t 3 112 = Z.of_nat r /\
    let w := bb t r in
    let b := bb (bitbuffer_invert t) r in
    b.[0] = 0xaa /\ b.[1] = 0xa5 /\ b.[2] = 0x83 /\
    data_get "id" d = Some (DATA_INT (255 - w.[3])) /\
    data_get "humidity" d = Some (DATA_INT (255 - w.[10])) /\
    data_get "battery_ok" d = Some (DATA_INT (if 240 <=? w.[4] then 0 else 1)) /\
    data_get "channel" d = Some (DATA_INT (4 - (w.[8] / 16) mod 4)) /\
    data_get "wind_avg_m_s" d =
      Some (DATA_DOUBLE (F32.to_double (F32.of_int (255 - w.[11])))).
Proof.
  intros Hd.
  destruct (output_origin t d Hd) as (r & (Hr & Hlen & H0 & H1 & H2) & _ & -> & _).
  exists r. split; [exact Hr|]. intros w b.
  assert (Hinv : forall i, (i < 15)%nat -> b.[i] = 255 - w.[i]).
  { intros i Hi. now apply frame_inverted. }
  fold w in H0, H1, H2. fold b.
  split; [rewrite Hinv, H0 by lia; reflexivity|].
  split; [rewrite Hinv, H1 by lia; reflexivity|].
  split; [rewrite Hinv, H2 by lia; reflexivity|].
  split.
  { change (data_get "id" (data b)) with (Some (DATA_INT b.[3])).
    now rewrite Hinv by lia. }
  split.
  { change (data_get "humidity" (data b)) with (Some (DATA_INT b.[10])).
    now rewrite Hinv by lia. }
  split.
  { change (data_get "battery_ok" (data b)) with (Some (DATA_INT (battery_ok b))).
    rewrite battery_ok_layout. unfold Layout.battery_ok, Layout.battery.
    rewrite Hinv by lia. pose proof (idx_range w 4).
    do 2 f_equal.
    destruct (Z.leb_spec 240 w.[4]), (Z.eqb_spec ((255 - w.[4]) / 16) 0);
      try reflexivity; exfalso; Z.div_mod_to_equations; lia. }
  split.
  { change (data_get "channel" (data b)) with (Some (DATA_INT (channel b))).
    rewrite channel_layout. unfold Layout.channel.
    rewrite Hinv by lia. pose proof (idx_range w 8).
    do 2 f_equal. Z.div_mod_to_equations. lia. }
  change (data_get "wind_avg_m_s" (data b))
    with (Some (DATA_DOUBLE (F32.to_double (F32.of_int b.[11])))).
  now rewrite Hinv by lia.
Qed.

Lemma reading_from_received_witness :
  exists r,
    bitbuffer_find_repeated_row raw_data 3 112 = Z.of_nat r /\
    let w := bb raw_data r in
    let b := bb (bitbuffer_invert raw_data) r in
    let d := data (bb (bitbuffer_invert raw_data) 0) in
    b.[0] = 0xaa /\ b.[1] = 0xa5 /\ b.[2] = 0x83 /\
    data_get "id" d = Some (DATA_INT (255 - w.[3])) /\
    data_get "humidity" d = Some (DATA_INT (255 - w.[10])) /\
    data_get "battery_ok" d = Some (DATA_INT (if 240 <=? w.[4] then 0 else 1)) /\
    data_get "channel" d = Some (DATA_INT (4 - (w.[8] / 16) mod 4)) /\
    data_get "wind_avg_m_s" d =
      Some (DATA_DOUBLE (F32.to_double (F32.of_int (255 - w.[11])))).
Proof.
  apply (reading_from_received raw_data).
  vm_compute. left. reflexivity.
Defined.

(** ** Calling the decoder again on the buffer it leaves behind *)

Lemma nth_invert (t : bitbuffer_t) (r : nat) :
  nth r (bitbuffer_invert t) empty_row = invert_row (nth r t empty_row).
Proof.
  unfold bitbuffer_invert.
  change empty_row with (invert_row empty_row) at 1.
  apply map_nth.
Qed.

(** Rows that agree still agree when both are inverted, and conversely. *)
Lemma rows_agree_invert (n : nat) (a b : bitrow_t) :
  rows_agree n (invert_row a) (invert_row b) = rows_agree n a b.
Proof.
  assert (Hdir : forall a b, bit_identical n a b ->
                             bit_identical n (invert_row a) (invert_row b)).
  { intros x y (Hx & Hy & H). split; [exact Hx|]. split; [exact Hy|].
    intros i Hi. rewrite !row_bit_invert.
    replace (i <? row_bits x)%nat with true by (symmetry; apply Nat.ltb_lt; lia).
    replace (i <? row_bits y)%nat with true by (symmetry; apply Nat.ltb_lt; lia).
    f_equal. now apply H. }
  assert (Hback : forall a b, bit_identical n (invert_row a) (invert_row b) ->
                              bit_identical n a b).
  { intros x y (Hx & Hy & H). cbn [invert_row row_bits] in Hx, Hy.
    split; [exact Hx|]. split; [exact Hy|].
    intros i Hi. specialize (H i Hi). rewrite !row_bit_invert in H.
    replace (i <? row_bits x)%nat with true in H by (symmetry; apply Nat.ltb_lt; lia).
    replace (i <? row_bits y)%nat with true in H by (symmetry; apply Nat.ltb_lt; lia).
    destruct (row_bit x i), (row_bit y i); simpl in H; congruence. }
  destruct (rows_agree n a b) eqn:E.
  - apply rows_agree_iff. apply Hdir. now apply rows_agree_iff.
  - destruct (rows_agree n (invert_row a) (invert_row b)) eqn:E'; [|reflexivity].
    apply rows_agree_iff, Hback, rows_agree_iff in E'. congruence.
Qed.

Lemma count_repeats_invert (t : bitbuffer_t) (r n : nat) :
  count_repeats (bitbuffer_invert t) r n = count_repeats t r n.
Proof.
  rewrite !count_repeats_indices. unfold repeats_of.
  replace (List.length (bitbuffer_invert t)) with (List.length t)
    by (unfold bitbuffer_invert; now rewrite length_map).
  f_equal. apply filter_ext. intros i.
  rewrite !nth_invert. apply rows_agree_invert.
Qed.

(** The consensus search finds the same row before and after inversion. *)
Lemma find_repeated_row_invert (t : bitbuffer_t) (k n : nat) :
  bitbuffer_find_repeated_row (bitbuffer_invert t) k n
  = bitbuffer_find_repeated_row t k n.
Proof.
  unfold bitbuffer_find_repeated_row.
  replace (List.length (bitbuffer_invert t)) with (List.length t)
    by (unfold bitbuffer_invert; now rewrite length_map).
  rewrite (find_ext _ (fun i => (k <=? count_repeats t i n)%nat)).
  - reflexivity.
  - intros i. now rewrite count_repeats_invert.
Qed.

(** X8: decoding is not repeatable on the same buffer.  Once a call has
    validated a row, and so inverted the buffer, whether it then put out a
    record or failed on the checksum, a second call on the buffer it left
    behind finds the same row, fails its signature check and returns
    [DECODE_ABORT_EARLY] without a record, leaving that buffer as it is. *)
Theorem second_call_aborts (t : bitbuffer_t) (r : nat) :
  validated t r ->
  let t' := buffer (snd (decode t)) in
  t' = bitbuffer_invert t /\
  decode t' =
    (Abort DECODE_ABORT_EARLY,
     mk_world t' [found_log r; Call_decoder_log 2 __func__ "Model check fail"]).
Proof.
  intros (Hr & Hlen & Hm) t'.
  assert (Ht' : t' = bitbuffer_invert t).
  { subst t'. decode_paths t; reflexivity. }
  split; [exact Ht'|]. rewrite Ht'.
  apply decode_of_path. apply path_model.
  - now rewrite find_repeated_row_invert.
  - now rewrite bits_per_row_invert.
  - intros (H0 & _).
    rewrite frame_inverted in H0 by (assumption || lia).
    destruct Hm as (Hw & _). rewrite Hw in H0. discriminate.
Qed.

Lemma second_call_aborts_witness :
  let t' := buffer (snd (decode raw_data)) in
  t' = bitbuffer_invert raw_data /\
  decode t' =
    (Abort DECODE_ABORT_EARLY,
     mk_world t' [found_log 0; Call_decoder_log 2 __func__ "Model check fail"]).
Proof.
  apply (second_call_aborts raw_data 0).
  repeat split; reflexivity.
Defined.

(** ** The repeat counter *)

Lemma same_frames_length (t1 t2 : bitbuffer_t) :
  same_frames t1 t2 -> List.length t1 = List.length t2.
Proof. induction 1; simpl; congruence. Qed.

Lemma same_frames_nth (t1 t2 : bitbuffer_t) :
  same_frames t1 t2 ->
  forall r, frame_equal (nth r t1 empty_row) (nth r t2 empty_row).
Proof.
  induction 1 as [|a b t1 t2 Hab _ IH]; intros r.
  - destruct r; split; auto.
  - destruct r as [|r]; simpl; [assumption|apply IH].
Qed.

(** The first 112 bits of a row are those of its bytes 0 to 13. *)
Lemma frame_equal_bits (a b : bitrow_t) (i : nat) :
  frame_equal a b -> (i < 112)%nat -> row_bit a i = row_bit b i.
Proof.
  intros [_ H] Hi. unfold row_bit.
  rewrite H; [reflexivity|].
  apply Nat.Div0.div_lt_upper_bound. lia.
Qed.

Lemma frame_equal_sym (a b : bitrow_t) : frame_equal a b -> frame_equal b a.
Proof. intros [Hn H]. split; [auto|]. intros i Hi. symmetry. now apply H. Qed.

Lemma bit_identical_frames (a a' b b' : bitrow_t) :
  frame_equal a a' -> frame_equal b b' ->
  bit_identical 112 a b -> bit_identical 112 a' b'.
Proof.
  intros Ha Hb (Hna & Hnb & H).
  destruct Ha as [Ea Ha']. destruct Hb as [Eb Hb'].
  split; [lia|]. split; [lia|].
  intros i Hi.
  rewrite <- (frame_equal_bits a a' i (conj Ea Ha') Hi).
  rewrite <- (frame_equal_bits b b' i (conj Eb Hb') Hi).
  now apply H.
Qed.

Lemma rows_agree_frames (a a' b b' : bitrow_t) :
  frame_equal a a' -> frame_equal b b' ->
  rows_agree 112 a b = rows_agree 112 a' b'.
Proof.
  intros Ha Hb.
  destruct (rows_agree 112 a b) eqn:E1, (rows_agree 112 a' b') eqn:E2;
    try reflexivity.
  - apply rows_agree_iff in E1.
    apply (bit_identical_frames _ _ _ _ Ha Hb), rows_agree_iff in E1. congruence.
  - apply rows_agree_iff in E2.
    apply (bit_identical_frames _ _ _ _ (frame_equal_sym _ _ Ha) (frame_equal_sym _ _ Hb)),
      rows_agree_iff in E2.
    congruence.
Qed.

Lemma find_repeated_row_frames (t1 t2 : bitbuffer_t) :
  same_frames t1 t2 ->
  bitbuffer_find_repeated_row t1 3 112 = bitbuffer_find_repeated_row t2 3 112.
Proof.
  intros H. unfold bitbuffer_find_repeated_row.
  rewrite <- (same_frames_length _ _ H).
  rewrite (find_ext _ (fun i => (3 <=? count_repeats t2 i 112)%nat)).
  - reflexivity.
  - intros i. rewrite !count_repeats_indices. unfold repeats_of.
    rewrite <- (same_frames_length _ _ H).
    do 2 f_equal. apply filter_ext. intros j.
    apply rows_agree_frames; now apply same_frames_nth.
Qed.

(** X9: nothing behind byte 13 of a row has any influence on the outcome.
    Two buffers whose rows have, one by one, the same bit count and the
    same bytes 0 to 13 make the decoder return the same value, log the same
    messages and put out the same record, whatever their repeat counters
    (byte 14) and later bytes are. *)
Theorem repeat_counter_ignored (t1 t2 : bitbuffer_t) :
  same_frames t1 t2 ->
  fst (decode t1) = fst (decode t2) /\
  calls (snd (decode t1)) = calls (snd (decode t2)).
Proof.
  intros H.
  pose proof (find_repeated_row_frames _ _ H) as Hfind.
  assert (Hbits : forall r, bits_per_row t1 r = bits_per_row t2 r).
  { intros r. now destruct (same_frames_nth _ _ H r). }
  assert (Hbytes : forall r i, (i < 14)%nat -> (bb t1 r).[i] = (bb t2 r).[i]).
  { intros r i Hi. now destruct (same_frames_nth _ _ H r) as [_ Hb]; apply Hb. }
  assert (Hinv : forall r i, bits_per_row t1 r = 120%nat -> (i < 14)%nat ->
            (bb (bitbuffer_invert t1) r).[i] = (bb (bitbuffer_invert t2) r).[i]).
  { intros r i Hl Hi.
    rewrite !frame_inverted by (rewrite <- ?Hbits; assumption || lia).
    now rewrite Hbytes. }
  assert (P2 : exists b2, decode_path t2 (fst (decode t1))
                            (mk_world b2 (calls (snd (decode t1))))).
  { pose proof (decode_takes_path t1) as P.
    destruct (decode t1) as [res w]. cbn [fst snd] in *.
    inversion P as [Hf|r Hf Hl|r Hf Hl Hm|r Hf Hl Hm Hc|r Hf Hl Hm Hc];
      subst; cbn [calls].
    - exists t2. apply path_no_repeat. congruence.
    - exists t2. apply path_length; [congruence|]. now rewrite <- Hbits.
    - exists t2. apply path_model; [congruence|now rewrite <- Hbits|].
      intros Hm2. apply Hm. apply (model_ok_ext (bb t2 r)); [|assumption].
      intros i Hi. symmetry. now apply Hbytes.
    - exists (bitbuffer_invert t2).
      apply path_checksum; [congruence|now rewrite <- Hbits| |].
      + apply (model_ok_ext (bb t1 r)); [|assumption]. intros i Hi. now apply Hbytes.
      + rewrite add_bytes_low8 in *.
        rewrite <- (checksum_ext _ _ (fun i Hi => Hinv r i Hl Hi)).
        rewrite <- (Hinv r 13%nat Hl) by lia. assumption.
    - exists (bitbuffer_invert t2).
      rewrite (data_ext _ _ (fun i Hi => Hinv r i Hl Hi)).
      apply path_output; [congruence|now rewrite <- Hbits| |].
      + apply (model_ok_ext (bb t1 r)); [|assumption]. intros i Hi. now apply Hbytes.
      + rewrite add_bytes_low8 in *.
        rewrite <- (checksum_ext _ _ (fun i Hi => Hinv r i Hl Hi)).
        rewrite <- (Hinv r 13%nat Hl) by lia. assumption. }
  destruct P2 as [b2 P2].
  destruct (decode_path_functional t2 _ _ _ _ P2 (decode_takes_path t2)) as [Hres Hw].
  rewrite <- Hres, <- Hw. auto.
Qed.

Lemma repeat_counter_ignored_witness :
  let t2 := map (fun rr => mk_row 120 (firstn 14 (row_bytes (raw_row rr)) ++ [x00; rr]))
                [x01; x02; x03; x04; x05; x06] in
  fst (decode raw_data) = fst (decode t2) /\
  calls (snd (decode raw_data)) = calls (snd (decode t2)).
Proof.
  intros t2. apply (repeat_counter_ignored raw_data t2).
  repeat constructor; simpl;
    intros i Hi; do 14 (destruct i as [|i]; [reflexivity|]); lia.
Defined.

(** ** The quorum *)

(** Rows that agree over their first 112 bits have the same bytes 0 to
    13. *)
Lemma bit_identical_bytes (a b : bitrow_t) (j : nat) :
  bit_identical 112 a b -> (j < 14)%nat ->
  (row_bytes a).[j] = (row_bytes b).[j].
Proof.
  intros (_ & _ & H) Hj.
  apply byte_bits_inj; try apply idx_range.
  intros p Hp.
  replace p with (Z.of_nat (7 - (7 - Z.to_nat p))) by lia.
  rewrite <- !row_bit_of_byte by lia.
  apply H. lia.
Qed.

(** X10: a record is never put out on the strength of fewer than three
    copies.  Whenever the decoder puts out a record, the buffer holds a
    group of at least three distinct rows, the selected 120-bit row among
    them, that all carry the bytes 0 to 13 of the selected row; the record
    is built from the complement of these bytes. *)
Theorem record_needs_quorum (t : bitbuffer_t) (d : data_t) :
  In d (outputs (calls (snd (decode t)))) ->
  exists r g,
    consensus_group t 112 3 g /\ In r g /\
    bits_per_row t r = 120%nat /\
    (forall i j, In i g -> (j < 14)%nat -> (bb t i).[j] = (bb t r).[j]) /\
    (forall j, (j < 14)%nat ->
       (bb (bitbuffer_invert t) r).[j] = 255 - (bb t r).[j]) /\
    d = data (bb (bitbuffer_invert t) r).
Proof.
  intros Hd.
  destruct (output_origin t d Hd) as (r & (Hr & Hlen & _) & _ & Hdata & _).
  destruct (find_repeated_row_cases t 3 112)
    as [(r' & Hr' & Hlt & Hc & _)|[Hnone _]].
  2:{ rewrite Hr in Hnone. lia. }
  assert (r' = r) by (apply Nat2Z.inj; congruence). subst r'.
  destruct (repeats_form_group t r 112 3) as [G Hin]; [lia|assumption|assumption|].
  exists r, (repeats_of t r 112).
  split; [exact G|]. split; [exact Hin|]. split; [exact Hlen|].
  split.
  - intros i j Hi Hj. unfold bb.
    apply bit_identical_bytes; [|assumption].
    now apply (group_agree _ _ _ _ G).
  - split; [|exact Hdata].
    intros j Hj. apply frame_inverted; [assumption|lia].
Qed.

Lemma record_needs_quorum_witness :
  exists r g,
    consensus_group raw_data 112 3 g /\ In r g /\
    bits_per_row raw_data r = 120%nat /\
    (forall i j, In i g -> (j < 14)%nat -> (bb raw_data i).[j] = (bb raw_data r).[j]) /\
    (forall j, (j < 14)%nat ->
       (bb (bitbuffer_invert raw_data) r).[j] = 255 - (bb raw_data r).[j]) /\
    data (bb (bitbuffer_invert raw_data) 0) = data (bb (bitbuffer_invert raw_data) r).
Proof.
  apply (record_needs_quorum raw_data).
  vm_compute. left. reflexivity.
Defined.

(** A row that the consensus search selects and that is a copy of a good
    frame is decoded to the record of that frame. *)
Lemma copy_decodes (t : bitbuffer_t) (r : nat) (f : list byte) :
  bitbuffer_find_repeated_row t 3 112 = Z.of_nat r ->
  copy_of f (nth r t empty_row) ->
  List.length f = 14%nat ->
  f.[0] = 0xaa -> f.[1] = 0xa5 -> f.[2] = 0x83 ->
  f.[13] = checksum f ->
  fst (decode t) = Events 1 /\
  outputs (calls (snd (decode t))) = [data f].
Proof.
  intros Hfind [rr Hcopy] Hf H0 H1 H2 Hck.
  assert (Hrow : bb t r = wire_frame f ++ [rr]) by (unfold bb; now rewrite Hcopy).
  assert (Hlen : bits_per_row t r = 120%nat)
    by (unfold bits_per_row; now rewrite Hcopy).
  assert (Hv : validated t r).
  { split; [exact Hfind|]. split; [exact Hlen|].
    unfold model_ok. rewrite Hrow, !wire_row_idx by lia.
    rewrite H0, H1, H2. repeat split; reflexivity. }
  assert (Hb : forall i, (i < 14)%nat -> (bb (bitbuffer_invert t) r).[i] = f.[i]).
  { intros i Hi. rewrite frame_inverted by (assumption || lia).
    rewrite Hrow, wire_row_idx by lia. lia. }
  destruct (decode_output t r Hv) as [Hres Hout].
  { rewrite (checksum_ext _ _ Hb), (Hb 13%nat) by lia. now symmetry. }
  rewrite (data_ext _ _ Hb) in Hout. auto.
Qed.

(** X11: three good copies outvote the noise.  Let the buffer hold, at any
    three or more distinct places, copies of a good frame (first bytes
    AA A5 83, byte 13 the sum modulo 256 of the first 13), and let no other
    rows reach a quorum, that is, let every row of every consensus group be
    such a copy.  Then, whatever else the buffer holds and wherever, the
    decoder puts out exactly the record of that frame. *)
Theorem copies_outvote_noise (t : bitbuffer_t) (f : list byte) (g : list nat) :
  List.length f = 14%nat ->
  f.[0] = 0xaa -> f.[1] = 0xa5 -> f.[2] = 0x83 ->
  f.[13] = checksum f ->
  NoDup g -> (3 <= List.length g)%nat ->
  (forall i, In i g ->
     (i < List.length t)%nat /\ copy_of f (nth i t empty_row)) ->
  (forall g' i, consensus_group t 112 3 g' -> In i g' ->
     copy_of f (nth i t empty_row)) ->
  fst (decode t) = Events 1 /\
  outputs (calls (snd (decode t))) = [data f].
Proof.
  intros Hf H0 H1 H2 Hck Hnd Hsz Hcopies Hquorum.
  assert (G : consensus_group t 112 3 g).
  { constructor; try assumption.
    - intros i Hi. now apply Hcopies.
    - intros i j Hi Hj.
      destruct (Hcopies i Hi) as [_ [ri ->]].
      destruct (Hcopies j Hj) as [_ [rj ->]].
      apply rows_agree_iff. now apply wire_rows_agree. }
  assert (Hmem : exists i0, In i0 g).
  { destruct g as [|i0 g']; [simpl in Hsz; lia|exists i0; now left]. }
  destruct Hmem as [i0 Hi0].
  pose proof (group_member_repeats _ _ _ _ _ G Hi0) as Hc0.
  destruct (Hcopies i0 Hi0) as [Hlt0 _].
  destruct (find_repeated_row_cases t 3 112)
    as [(r & Hfind & Hr & Hc & _)|[_ Hnone]].
  2:{ specialize (Hnone _ Hlt0). lia. }
  destruct (repeats_form_group t r 112 3) as [Gr Hin]; [lia|assumption|assumption|].
  pose proof (Hquorum _ _ Gr Hin) as Hcopy.
  exact (copy_decodes t r f Hfind Hcopy Hf H0 H1 H2 Hck).
Qed.

Lemma copies_outvote_noise_witness :
  let f := [xaa; xa5; x83; xff; x95; x5a; x9f; x18; xc0; xc9; x25; x00; xa2; xc7] in
  let t := [ mk_row 120 [x55; x5a; x7c; x00; x6a; xa5; x60; xe7; x3f; x36;
                         xda; xff; x5d; x30; xff];
             raw_row xfe;
             mk_row 64 [x55; x5a; x7c; x00; x6a; xa5; x60; xe7];
             raw_row xfc;
             raw_row xfb ] in
  fst (decode t) = Events 1 /\
  outputs (calls (snd (decode t))) = [data f].
Proof.
  intros f t.
  apply (copies_outvote_noise t f [1; 3; 4]%nat);
    [reflexivity|reflexivity|reflexivity|reflexivity|reflexivity| | | | ].
  - repeat constructor; simpl; intuition lia.
  - simpl. lia.
  - intros i Hi. simpl in Hi.
    destruct Hi as [<-|[<-|[<-|[]]]];
      (split; [simpl; lia|eexists; reflexivity]).
  - intros g' i G' Hi.
    pose proof (group_member_repeats _ _ _ _ _ G' Hi) as Hc.
    pose proof (group_rows _ _ _ _ G' _ Hi) as Hlt.
    simpl in Hlt.
    do 5 (destruct i as [|i];
          [first [eexists; reflexivity | vm_compute in Hc; lia]|]).
    lia.
Defined.

(** ** The reason of an abort *)

(** X12: a call that returns an abort code has put out nothing, and the
    last thing it did was to log, at level 2 and under the decoder's name,
    the check that failed: "Length check fail" for [DECODE_ABORT_LENGTH],
    "Checksum fail" for [DECODE_FAIL_MIC].  [DECODE_ABORT_EARLY] stands for
    two different failures that only the message tells apart: "Repeated row
    fail" when no row reached the quorum, "Model check fail" when the
    selected 120-bit row does not start with 55 5A 7C. *)
Theorem abort_is_logged (t : bitbuffer_t) (code : decode_abort) :
  fst (decode t) = Abort code ->
  exists msg,
    last (calls (snd (decode t))) Call_bitbuffer_invert
      = Call_decoder_log 2 __func__ msg /\
    outputs (calls (snd (decode t))) = [] /\
    match code with
    | DECODE_ABORT_LENGTH =>
        msg = "Length check fail"%string /\
        exists r, bitbuffer_find_repeated_row t 3 112 = Z.of_nat r /\
                  bits_per_row t r <> 120%nat
    | DECODE_FAIL_MIC =>
        msg = "Checksum fail"%string /\ exists r, validated t r
    | DECODE_ABORT_EARLY =>
        (msg = "Repeated row fail"%string /\
         bitbuffer_find_repeated_row t 3 112 = -1)
        \/
        (msg = "Model check fail"%string /\
         exists r, bitbuffer_find_repeated_row t 3 112 = Z.of_nat r /\
                   bits_per_row t r = 120%nat /\ ~ model_ok (bb t r))
    end.
Proof.
  intros Hres.
  pose proof (decode_takes_path t) as P.
  destruct (decode t) as [res w]. cbn [fst snd] in *. subst res.
  inversion P as [Hf|r Hf Hl|r Hf Hl Hm|r Hf Hl Hm Hc| ]; subst; cbn [calls].
  - eexists. split; [reflexivity|]. split; [reflexivity|]. left. auto.
  - eexists. split; [reflexivity|]. split; [reflexivity|]. split; [reflexivity|].
    exists r. auto.
  - eexists. split; [reflexivity|]. split; [reflexivity|]. right.
    split; [reflexivity|]. exists r. auto.
  - eexists. split; [reflexivity|]. split; [reflexivity|]. split; [reflexivity|].
    exists r. unfold validated. auto.
Qed.

Lemma abort_is_logged_witness :
  let t := map (fun rr => mk_row 120 (x54 :: tl (row_bytes (raw_row rr)))) [xff; xfe; xfd] in
  exists msg,
    last (calls (snd (decode t))) Call_bitbuffer_invert
      = Call_decoder_log 2 __func__ msg /\
    outputs (calls (snd (decode t))) = [] /\
    ((msg = "Repeated row fail"%string /\
      bitbuffer_find_repeated_row t 3 112 = -1)
     \/
     (msg = "Model check fail"%string /\
      exists r, bitbuffer_find_repeated_row t 3 112 = Z.of_nat r /\
                bits_per_row t r = 120%nat /\ ~ model_ok (bb t r))).
Proof.
  intros t. apply (abort_is_logged t DECODE_ABORT_EARLY). reflexivity.
Defined.
